(** * hikcam_ocr: the trigger / capture / recognise / publish script

    A shallow embedding of [paddle_ocr.py]: the code normaliser [fix_code],
    the recognition vote inside [capture_and_ocr], the failure counter and
    buffer discipline of [capture_and_ocr], the MQTT callback
    [on_mqtt_message] and one pass of the main loop.

    Conventions.
    - a Python [str] is the list of its Unicode code points ([pystr]);
      [str "..."] turns a literal into one;
    - a Python [int] is a [Z], a Python [float] a binary64 [float];
    - a naive [datetime] is its number of microseconds since the epoch;
    - the calls made to the camera SDK, the OCR engine and the MQTT client
      are recorded, in order, in a list of [call]s; what those collaborators
      answer is an input of the model ([responses]). *)

From Stdlib Require Import String Ascii ZArith NArith Bool Lia Floats List.
From Stdlib Require Import Permutation Sorted.
Import ListNotations.

Set Warnings "-inexact-float,-register-all".

Local Open Scope Z_scope.

(* ================================================================== *)
(** ** Python values *)

Definition pystr := list N.

Definition str (s : string) : pystr :=
  map N_of_ascii (list_ascii_of_string s).

(** The values a detection text may be: [fix_code] tests its argument with
    [isinstance(code, str)] before anything else. *)
Inductive pyval :=
| PyNone
| PyBool (b : bool)
| PyInt (z : Z)
| PyFloat (f : float)
| PyBytes (b : list Byte.byte)
| PyStr (s : pystr)
| PyList (l : list pyval).

Definition isinstance_str (v : pyval) : bool :=
  match v with PyStr _ => true | _ => false end.

Definition pystr_eq_dec : forall a b : pystr, {a = b} + {a <> b} :=
  list_eq_dec N.eq_dec.

(* ================================================================== *)
(** ** 2. Configuration constants of the script *)

Definition TTL_SECONDS : Z := 5.
Definition OCR_CONFIDENCE_THRESHOLD : float := 0.8%float.
Definition CAMERA_MAX_FAILURES : Z := 3.
Definition MQTT_TOPIC_PUB : string := "mqtt_plc/code".
Definition MV_OK : Z := 0.

(* ================================================================== *)
(** ** 4. fix_code *)

Module Chars.
Local Open Scope N_scope.

Definition is_lower (c : N) : bool := (97 <=? c) && (c <=? 122).
Definition is_upper (c : N) : bool := (65 <=? c) && (c <=? 90).
Definition is_digit (c : N) : bool := (48 <=? c) && (c <=? 57).

(** The complement of the character class [[^a-zA-Z0-9]]. *)
Definition is_alnum (c : N) : bool := is_lower c || is_upper c || is_digit c.

(** [str.upper] on one character of [[a-zA-Z0-9]], the only characters it
    is applied to in [fix_code]. *)
Definition upper_char (c : N) : N := if is_lower c then c - 32 else c.

(** What is left of a character after the clean-up: an upper-case letter
    or a digit. *)
Definition is_upper_alnum (c : N) : bool := is_upper c || is_digit c.

End Chars.

(** [re.sub(r"[^a-zA-Z0-9]", "", code)] *)
Definition re_sub_non_alnum (code : pystr) : pystr := filter Chars.is_alnum code.

(** [s.upper()] *)
Definition upper (s : pystr) : pystr := map Chars.upper_char s.

(** [s.startswith(p)] *)
Fixpoint startswith (s p : pystr) {struct p} : bool :=
  match p with
  | [] => true
  | c :: p' =>
      match s with
      | [] => false
      | d :: s' => N.eqb d c && startswith s' p'
      end
  end.

(** [len(s)] *)
Definition len (s : pystr) : Z := Z.of_nat (length s).

(** [bool(s)] for a [str]: the empty string is falsy. *)
Definition truthy (s : pystr) : bool :=
  match s with [] => false | _ :: _ => true end.

Definition cleaned_code (code : pystr) : pystr := upper (re_sub_non_alnum code).

(** An exception of class [Exception], or a returned value. *)
Inductive outcome (A : Type) :=
| Returns (a : A)
| Raises.
Arguments Returns {A} a.
Arguments Raises {A}.

(** The collaborator returned. *)
Definition returns_ {A : Type} (o : outcome A) : bool :=
  match o with Returns _ => true | Raises => false end.

(** One element of a line of [ocr.ocr]'s result: [word_info[1][0]] and
    [word_info[1][1]]. *)
Record word_info := { text : pyval; confidence : float }.

(** What [ocr.ocr] returns: [None], or a list with, for each image, [None] or
    the list of the words found. *)
Definition ocr_output := option (list (option (list word_info))).

(** [collections.Counter]: a [dict], so the keys stay in the order of their
    first insertion. *)
Definition counter := list (pystr * Z).

Fixpoint counter_incr (elem : pystr) (c : counter) : counter :=
  match c with
  | [] => [(elem, 1)]
  | (k, n) :: c' =>
      if pystr_eq_dec elem k then (k, n + 1) :: c'
      else (k, n) :: counter_incr elem c'
  end.

(** [Counter(iterable)] *)
Definition Counter (iterable : list pystr) : counter :=
  fold_left (fun c elem => counter_incr elem c) iterable [].

(** [max(it, key=itemgetter(1))] with the running maximum [best]: an item
    replaces it only when its count is strictly greater. *)
Fixpoint max_by_count (best : pystr * Z) (it : counter) : pystr * Z :=
  match it with
  | [] => best
  | item :: rest => max_by_count (if snd best <? snd item then item else best) rest
  end.

(** [c.most_common(1)], which is [heapq.nlargest(1, c.items(), key=itemgetter(1))]:
    the empty list for an empty counter, else the one item [max] finds. *)
Definition most_common_1 (c : counter) : list (pystr * Z) :=
  match c with
  | [] => []
  | item :: rest => [max_by_count item rest]
  end.

Section Recognition.
(** The three constants of the business rule. *)
Variable ENABLE_CODE_FILTER : bool.
Variable CODE_PREFIX : pystr.
Variable CODE_LENGTH : Z.

Definition fix_code_cfg (code : pyval) : pystr :=
  match code with
  | PyStr s =>
      let cleaned := cleaned_code s in
      if ENABLE_CODE_FILTER then
        if startswith cleaned CODE_PREFIX && (len cleaned =? CODE_LENGTH)
        then cleaned
        else []
      else cleaned
  | _ => []
  end.

(** The body of [for word_info in line]. *)
Definition visit_word_cfg (results : list pystr) (w : word_info) : list pystr :=
  if PrimFloat.ltb OCR_CONFIDENCE_THRESHOLD (confidence w) then
    let cleaned_text := fix_code_cfg (text w) in
    if truthy cleaned_text then results ++ [cleaned_text] else results
  else results.

(** The body of [for line in ocr_results]. *)
Definition visit_line_cfg (results : list pystr) (line : option (list word_info))
  : list pystr :=
  match line with
  | None => results
  | Some words => fold_left visit_word_cfg words results
  end.

(** Lines 218-230: the list [results]. *)
Definition collect_results_cfg (ocr_results : ocr_output) : list pystr :=
  match ocr_results with
  | Some ((_ :: _) as lines) => fold_left visit_line_cfg lines []
  | _ => []
  end.

(** Lines 232-241: [None] without results, else the first component of
    [Counter(results).most_common(1)[0]] (an [IndexError] if that list were
    empty). *)
Definition vote (results : list pystr) : outcome (option pystr) :=
  match results with
  | [] => Returns None
  | _ :: _ =>
      match most_common_1 (Counter results) with
      | (most_common_result, _) :: _ => Returns (Some most_common_result)
      | [] => Raises
      end
  end.

Definition recognise_cfg (ocr_results : ocr_output) : outcome (option pystr) :=
  vote (collect_results_cfg ocr_results).

(** The aggregation step on the detections of one frame. *)
Definition aggregate_cfg (detections : list word_info) : outcome (option pystr) :=
  recognise_cfg (Some [Some detections]).

End Recognition.

(** The script's constants: [ENABLE_CODE_FILTER = True], [CODE_PREFIX = "LKTT"],
    [CODE_LENGTH = 10]. *)
Definition ENABLE_CODE_FILTER : bool := true.
Definition CODE_PREFIX : pystr := str "LKTT".
Definition CODE_LENGTH : Z := 10.

Definition fix_code : pyval -> pystr :=
  fix_code_cfg ENABLE_CODE_FILTER CODE_PREFIX CODE_LENGTH.
Definition collect_results : ocr_output -> list pystr :=
  collect_results_cfg ENABLE_CODE_FILTER CODE_PREFIX CODE_LENGTH.
Definition recognise : ocr_output -> outcome (option pystr) :=
  recognise_cfg ENABLE_CODE_FILTER CODE_PREFIX CODE_LENGTH.
Definition aggregate : list word_info -> outcome (option pystr) :=
  aggregate_cfg ENABLE_CODE_FILTER CODE_PREFIX CODE_LENGTH.

(* ================================================================== *)
(** ** capture_and_ocr *)

(** The calls the script makes to its collaborators. *)
Inductive call :=
| MV_CC_SetCommandValue (command : string)
| MV_CC_GetImageBuffer (timeout_ms : Z)
| reconnect_camera
| MV_CC_FreeImageBuffer
| ocr_ocr
| publish (topic : string) (payload : pystr).

Definition call_eq_dec : forall a b : call, {a = b} + {a <> b}.
Proof.
  decide equality; try apply Z.eq_dec; try apply string_dec; apply pystr_eq_dec.
Defined.

Definition CAMERA_TRIGGER_TIMEOUT_MS : Z := 3000.

(** What the collaborators answer during one call of [capture_and_ocr].
    [reconnect_camera] catches every [Exception] itself and returns a
    [bool]; [on_image] stands for lines 209-215 (numpy and OpenCV). *)
Record responses := {
  on_trigger : outcome unit;
  on_fetch : outcome Z;
  on_reconnect : bool;
  on_image : outcome unit;
  on_ocr : outcome ocr_output
}.

(** The [try] block, lines 188-241: the counter it leaves, what it returns
    or that it raised, the calls it made, and the local [ret] ([None] while
    unbound). *)
Definition try_block (consecutive_failures : Z) (w : responses)
  : Z * outcome (option pystr) * list call * option Z :=
  let trigger := MV_CC_SetCommandValue "TriggerSoftware" in
  let fetch := MV_CC_GetImageBuffer CAMERA_TRIGGER_TIMEOUT_MS in
  match on_trigger w with
  | Raises => (consecutive_failures, Raises, [trigger], None)
  | Returns _ =>
      match on_fetch w with
      | Raises => (consecutive_failures, Raises, [trigger; fetch], None)
      | Returns ret =>
          if negb (ret =? MV_OK) then
            let consecutive_failures := consecutive_failures + 1 in
            if CAMERA_MAX_FAILURES <=? consecutive_failures then
              if on_reconnect w
              then (0, Returns None, [trigger; fetch; reconnect_camera], Some ret)
              else (consecutive_failures, Returns None,
                    [trigger; fetch; reconnect_camera], Some ret)
            else (consecutive_failures, Returns None, [trigger; fetch], Some ret)
          else
            let consecutive_failures := 0 in
            match on_image w with
            | Raises => (consecutive_failures, Raises, [trigger; fetch], Some ret)
            | Returns _ =>
                match on_ocr w with
                | Raises =>
                    (consecutive_failures, Raises, [trigger; fetch; ocr_ocr], Some ret)
                | Returns ocr_results =>
                    (consecutive_failures, recognise ocr_results,
                     [trigger; fetch; ocr_ocr], Some ret)
                end
            end
      end
  end.

(** [capture_and_ocr]: the [try] block, [except Exception: return None], and
    the [finally] clause, which frees the buffer when [ret] is bound and
    equal to [MV_OK] ([frame_out] is assigned before [ret] is). *)
Definition capture_and_ocr (consecutive_failures : Z) (w : responses)
  : Z * option pystr * list call :=
  let '(consecutive_failures, returned, calls, ret) :=
    try_block consecutive_failures w in
  let result := match returned with Returns r => r | Raises => None end in
  let release := match ret with Some code => code =? MV_OK | None => false end in
  (consecutive_failures, result,
   if release then calls ++ [MV_CC_FreeImageBuffer] else calls).

(** The counter, the result and the calls of [capture_and_ocr]. *)
Definition counter_after (cf : Z) (w : responses) : Z :=
  fst (fst (capture_and_ocr cf w)).
Definition result_of (cf : Z) (w : responses) : option pystr :=
  snd (fst (capture_and_ocr cf w)).
Definition calls_of (cf : Z) (w : responses) : list call :=
  snd (capture_and_ocr cf w).

(** Successive calls of [capture_and_ocr], the counter threaded through. *)
Fixpoint captures (cf : Z) (ws : list responses) : Z * list call :=
  match ws with
  | [] => (cf, [])
  | w :: ws' =>
      let '(cf', calls') := captures (counter_after cf w) ws' in
      (cf', calls_of cf w ++ calls')
  end.

(** The fetch of this call returned a code other than [MV_OK]. *)
Definition fetch_fails (w : responses) : bool :=
  match on_trigger w, on_fetch w with
  | Returns _, Returns ret => negb (ret =? MV_OK)
  | _, _ => false
  end.

(** The fetch of this call returned [MV_OK]: a buffer was acquired. *)
Definition fetch_succeeds (w : responses) : bool :=
  match on_trigger w, on_fetch w with
  | Returns _, Returns ret => ret =? MV_OK
  | _, _ => false
  end.

(* ================================================================== *)
(** ** on_mqtt_message and the main loop *)

(** A [datetime] object: [micros] is its value, [oid] the identity of the
    object (every [strptime] call makes a new one); no code reads [oid]. *)
Record datetime := { oid : nat; micros : Z }.

(** [(datetime.now() - target_time).total_seconds() > TTL_SECONDS].
    [total_seconds] is the difference in microseconds divided by [10**6],
    correctly rounded; it exceeds the integer [TTL_SECONDS] exactly when the
    difference exceeds [TTL_SECONDS * 10**6] microseconds. *)
Definition expired (now : Z) (target_time : datetime) : bool :=
  TTL_SECONDS * 1000000 <? now - micros target_time.

(** [on_mqtt_message]: [target_time] is what [strptime] made of the payload
    ([Raises] for the [ValueError] of a malformed one), [now] what
    [datetime.now()] returns; the effect is on [message_queue]. *)
Definition on_mqtt_message (now : Z) (target_time : outcome datetime)
  (message_queue : list datetime) : list datetime :=
  match target_time with
  | Raises => message_queue
  | Returns target_time =>
      if expired now target_time then message_queue
      else message_queue ++ [target_time]
  end.

(** The two globals the main loop works on. *)
Record globals := {
  consecutive_failures : Z;
  message_queue : list datetime
}.

(** One pass of the body of [while True] (lines 307-326): the globals it
    leaves and the calls it made.  An empty queue is the [Empty] exception. *)
Definition main_loop_body (now : Z) (w : responses) (g : globals)
  : globals * list call :=
  match message_queue g with
  | [] => (g, [])
  | target_time :: rest =>
      if expired now target_time then
        ({| consecutive_failures := consecutive_failures g;
            message_queue := rest |}, [])
      else
        let '(cf, final_result, calls) :=
          capture_and_ocr (consecutive_failures g) w in
        let g' := {| consecutive_failures := cf; message_queue := rest |} in
        match final_result with
        | Some code =>
            if truthy code then (g', calls ++ [publish MQTT_TOPIC_PUB code])
            else (g', calls)
        | None => (g', calls)
        end
  end.

(** *** The two threads together

    The listener thread calls [on_mqtt_message], the main thread runs the
    loop; the queue is all they share, so a run is an interleaving of
    messages and loop passes. *)
Inductive input :=
| Message (now : Z) (payload : outcome Z)
| Iteration (now : Z) (w : responses).

(** What happened to a trigger: received at [now] by the callback, or taken
    from the queue by a pass that read [now] and made [calls]. *)
Inductive record_ :=
| Received (d : datetime) (now : Z)
| Dequeued (d : datetime) (now : Z) (calls : list call).

Record system := {
  state : globals;
  next_oid : nat;
  history : list record_
}.

Definition initial : system :=
  {| state := {| consecutive_failures := 0; message_queue := [] |};
     next_oid := 0;
     history := [] |}.

Definition step (s : system) (i : input) : system :=
  match i with
  | Message now Raises =>
      {| state := {| consecutive_failures := consecutive_failures (state s);
                     message_queue :=
                       on_mqtt_message now Raises (message_queue (state s)) |};
         next_oid := next_oid s;
         history := history s |}
  | Message now (Returns t) =>
      let d := {| oid := next_oid s; micros := t |} in
      {| state := {| consecutive_failures := consecutive_failures (state s);
                     message_queue :=
                       on_mqtt_message now (Returns d) (message_queue (state s)) |};
         next_oid := S (next_oid s);
         history := history s ++ [Received d now] |}
  | Iteration now w =>
      let '(g, calls) := main_loop_body now w (state s) in
      {| state := g;
         next_oid := next_oid s;
         history :=
           match message_queue (state s) with
           | [] => history s
           | d :: _ => history s ++ [Dequeued d now calls]
           end |}
  end.

Definition run (inputs : list input) : system := fold_left step inputs initial.

(** A capture attempt was made for [d]: a pass that took [d] from the queue
    called the camera. *)
Definition capture_attempt (d : datetime) (h : list record_) : Prop :=
  exists now calls, In (Dequeued d now calls) h /\ calls <> [].

(* ================================================================== *)
(** ** Notions the properties are stated with *)

(** Only upper-case letters and digits. *)
Definition upper_alnum (s : pystr) : Prop :=
  Forall (fun c => Chars.is_upper_alnum c = true) s.

(** [a] stands before the first occurrence of [b] in [l]. *)
Definition before {A : Type} (a b : A) (l : list A) : Prop :=
  exists l1 l2, l = l1 ++ b :: l2 /\ ~ In b l1 /\ In a l1.

(** How often [x] occurs in [l]. *)
Definition occurrences (x : pystr) (l : list pystr) : Z :=
  Z.of_nat (count_occ pystr_eq_dec l x).

(** [c[elem]]: the count of a key, [0] for a missing one. *)
Fixpoint count_of (elem : pystr) (c : counter) : Z :=
  match c with
  | [] => 0
  | (k, n) :: c' => if pystr_eq_dec elem k then n else count_of elem c'
  end.

(** [list(c)]: the keys, in insertion order. *)
Definition keys (c : counter) : list pystr := map fst c.

(** A string that [fix_code] returned and did not reject. *)
Definition accepted (enable : bool) (prefix : pystr) (length_ : Z) (r : pystr)
  : Prop :=
  r <> [] /\ exists code, r = fix_code_cfg enable prefix length_ code.

(** A detection with a string for text. *)
Definition detection (s : string) (c : float) : word_info :=
  {| text := PyStr (str s); confidence := c |}.

(** The answers of a capture that goes through: the trigger and the fetch
    succeed, the image is converted, and the OCR engine returns the one
    detection [d] for the one image. *)
Definition capture_succeeds_with (d : word_info) (reconnects : bool) : responses :=
  {| on_trigger := Returns tt;
     on_fetch := Returns MV_OK;
     on_reconnect := reconnects;
     on_image := Returns tt;
     on_ocr := Returns (Some [Some [d]]) |}.

(** What every reachable [system] satisfies: the triggers in the queue are
    distinct objects that were fresh when received; a trigger that was taken
    from the queue is no longer in it, was fresh when received, and made no
    call if it was found expired. *)
Record invariant (s : system) : Prop := {
  queue_known :
    forall d, In d (message_queue (state s)) -> (oid d < next_oid s)%nat;
  queue_distinct : NoDup (message_queue (state s));
  received_known :
    forall d now, In (Received d now) (history s) -> (oid d < next_oid s)%nat;
  dequeued_known :
    forall d now calls,
      In (Dequeued d now calls) (history s) -> (oid d < next_oid s)%nat;
  queue_fresh :
    forall d now,
      In d (message_queue (state s)) -> In (Received d now) (history s) ->
      expired now d = false;
  dequeued_gone :
    forall d now calls,
      In (Dequeued d now calls) (history s) ->
      ~ In d (message_queue (state s))
      /\ (forall now', In (Received d now') (history s) -> expired now' d = false)
      /\ (expired now d = true -> calls = []);
  dequeued_once :
    forall d now calls now' calls',
      In (Dequeued d now calls) (history s) ->
      In (Dequeued d now' calls') (history s) ->
      calls = calls'
}.

(** The words of an answer of the OCR engine, in the order the two loops
    visit them. *)
Definition words_of (ocr_results : ocr_output) : list word_info :=
  match ocr_results with
  | None => []
  | Some lines =>
      flat_map (fun line => match line with None => [] | Some words => words end)
        lines
  end.

(** What one word contributes to [results]: its cleaned text when the
    confidence is above the threshold and the text is accepted. *)
Definition contribution (enable : bool) (prefix : pystr) (length_ : Z)
  (w : word_info) : list pystr :=
  if PrimFloat.ltb OCR_CONFIDENCE_THRESHOLD (confidence w) then
    match fix_code_cfg enable prefix length_ (text w) with
    | [] => []
    | cleaned_text => [cleaned_text]
    end
  else [].

(** The triggers taken from the queue, in the order the passes took them. *)
Definition dequeued (h : list record_) : list datetime :=
  flat_map (fun r => match r with
                     | Dequeued d _ _ => [d]
                     | Received _ _ => []
                     end) h.

(** The triggers that had not expired when the callback received them, in
    arrival order. *)
Definition received_fresh (h : list record_) : list datetime :=
  flat_map (fun r => match r with
                     | Received d now => if expired now d then [] else [d]
                     | Dequeued _ _ _ => []
                     end) h.

(* ================================================================== *)
(** ** initialize_camera, reconnect_camera, start-up and clean-up *)

Module Camera.

(** The calls of the camera life cycle and of the MQTT client's. *)
Inductive sdk_call :=
| MV_CC_Initialize
| MV_CC_EnumDevices
| MV_CC_CreateHandle
| MV_CC_OpenDevice
| MV_CC_SetEnumValue (name : string)
| MV_CC_StartGrabbing
| MV_CC_StopGrabbing
| MV_CC_IsDeviceConnected
| MV_CC_CloseDevice
| MV_CC_DestroyHandle
| MV_CC_Finalize
| time_sleep (seconds : Z)
| new_client
| loop_start
| loop_stop
| disconnect.

Definition sdk_call_eq_dec : forall a b : sdk_call, {a = b} + {a <> b}.
Proof. decide equality; try apply Z.eq_dec; apply string_dec. Defined.

(** A piece of code that makes calls and returns or raises: from the calls
    made so far to its outcome and the calls made then. *)
Definition action (A : Type) : Type :=
  list sdk_call -> outcome A * list sdk_call.

Definition ret {A : Type} (a : A) : action A := fun log => (Returns a, log).

Definition raise {A : Type} : action A := fun log => (Raises, log).

Definition bind {A B : Type} (m : action A) (k : A -> action B) : action B :=
  fun log =>
    match m log with
    | (Returns a, log') => k a log'
    | (Raises, log') => (Raises, log')
    end.

(** One call, with the collaborator's answer. *)
Definition perform {A : Type} (c : sdk_call) (answer : outcome A) : action A :=
  fun log => (answer, log ++ [c]).

Notation "x <- m ;; k" := (bind m (fun x => k))
  (at level 61, m at next level, right associativity).
Notation "m ;;; k" := (bind m (fun _ => k))
  (at level 61, right associativity).

(** What the SDK answers during one call of [initialize_camera]: the calls
    of the [try] block in order ([on_EnumDevices] is the returned code and
    [dev_list.nDeviceNum]), then what the [except] clause meets
    ([cam_handle] is the truth value of [cam.handle]). *)
Record init_answers := {
  on_Initialize : outcome Z;
  on_EnumDevices : outcome (Z * Z);
  on_CreateHandle : outcome Z;
  on_OpenDevice : outcome Z;
  on_SetTriggerMode : outcome Z;
  on_SetTriggerSource : outcome Z;
  on_StartGrabbing : outcome Z;
  on_IsDeviceConnected : outcome bool;
  on_CloseDevice : outcome Z;
  cam_handle : bool;
  on_DestroyHandle : outcome Z;
  on_Finalize : outcome Z
}.

(** Lines 109-135: every [raise Exception(...)] is a [raise]. *)
Definition initialize_try (a : init_answers) : action unit :=
  perform MV_CC_Initialize (on_Initialize a) ;;;
  e <- perform MV_CC_EnumDevices (on_EnumDevices a) ;;
  if negb (fst e =? MV_OK) || (snd e =? 0) then raise else
  r <- perform MV_CC_CreateHandle (on_CreateHandle a) ;;
  if negb (r =? MV_OK) then raise else
  r <- perform MV_CC_OpenDevice (on_OpenDevice a) ;;
  if negb (r =? MV_OK) then raise else
  perform (MV_CC_SetEnumValue "TriggerMode") (on_SetTriggerMode a) ;;;
  perform (MV_CC_SetEnumValue "TriggerSource") (on_SetTriggerSource a) ;;;
  r <- perform MV_CC_StartGrabbing (on_StartGrabbing a) ;;
  if negb (r =? MV_OK) then raise else ret tt.

(** Lines 143-148: the release of what was allocated. *)
Definition initialize_except (a : init_answers) : action unit :=
  connected <- perform MV_CC_IsDeviceConnected (on_IsDeviceConnected a) ;;
  (if connected
   then perform MV_CC_CloseDevice (on_CloseDevice a) ;;; ret tt
   else ret tt) ;;;
  (if cam_handle a
   then perform MV_CC_DestroyHandle (on_DestroyHandle a) ;;; ret tt
   else ret tt) ;;;
  perform MV_CC_Finalize (on_Finalize a) ;;;
  ret tt.

(** [initialize_camera]: what it returns (or that the [except] clause itself
    raised), the global [camera_initialized] it leaves, and the calls. *)
Definition initialize_camera (a : init_answers) (camera_initialized : bool)
  (log : list sdk_call) : outcome bool * bool * list sdk_call :=
  match initialize_try a log with
  | (Returns _, log) => (Returns true, true, log)
  | (Raises, log) =>
      match initialize_except a log with
      | (Returns _, log) => (Returns false, false, log)
      | (Raises, log) => (Raises, camera_initialized, log)
      end
  end.

(** What the SDK answers to the first part of [reconnect_camera]. *)
Record teardown_answers := {
  was_connected : outcome bool;
  on_StopGrabbing : outcome Z;
  on_Close : outcome Z;
  had_handle : bool;
  on_Destroy : outcome Z
}.

(** Lines 160-169. *)
Definition teardown (t : teardown_answers) : action unit :=
  connected <- perform MV_CC_IsDeviceConnected (was_connected t) ;;
  (if connected
   then perform MV_CC_StopGrabbing (on_StopGrabbing t) ;;;
        perform MV_CC_CloseDevice (on_Close t) ;;; ret tt
   else ret tt) ;;;
  (if had_handle t
   then perform MV_CC_DestroyHandle (on_Destroy t) ;;; ret tt
   else ret tt) ;;;
  perform (time_sleep 1) (Returns tt).

(** [reconnect_camera]: what it returns, the global [camera_initialized] it
    leaves, and the calls.  Its [except] clause catches what the first part
    or [initialize_camera] raised. *)
Definition reconnect_camera (t : teardown_answers) (a : init_answers)
  (camera_initialized : bool) : bool * bool * list sdk_call :=
  match teardown t [] with
  | (Raises, log) => (false, false, log)
  | (Returns _, log) =>
      match initialize_camera a camera_initialized log with
      | (Returns r, camera_initialized, log) => (r, camera_initialized, log)
      | (Raises, _, log) => (false, false, log)
      end
  end.

(** What the SDK answers to the four calls that release the camera. *)
Record release_answers := {
  on_Stop : outcome Z;
  on_CloseDevice' : outcome Z;
  on_DestroyHandle' : outcome Z;
  on_Finalize' : outcome Z
}.

(** Lines 298-301 and 335-340. *)
Definition release_camera (r : release_answers) : action unit :=
  perform MV_CC_StopGrabbing (on_Stop r) ;;;
  perform MV_CC_CloseDevice (on_CloseDevice' r) ;;;
  perform MV_CC_DestroyHandle (on_DestroyHandle' r) ;;;
  perform MV_CC_Finalize (on_Finalize' r) ;;;
  ret tt.

(** How the start-up ends: the main loop is entered, the process exits with
    a code, or an exception is left uncaught. *)
Inductive ending :=
| Running
| Exit (code : Z)
| Uncaught.

(** Lines 284-302: the ending, the globals [camera_initialized] and
    [mqtt_client] (set or [None]), and the calls. *)
Definition startup (a : init_answers) (on_new_client on_loop_start : outcome unit)
  (r : release_answers) : ending * bool * bool * list sdk_call :=
  match initialize_camera a false [] with
  | (Raises, camera_initialized, log) => (Uncaught, camera_initialized, false, log)
  | (Returns false, camera_initialized, log) =>
      (Exit 1, camera_initialized, false, log)
  | (Returns true, camera_initialized, log) =>
      match (perform new_client on_new_client ;;;
             perform loop_start on_loop_start) log with
      | (Returns _, log) => (Running, camera_initialized, true, log)
      | (Raises, log) =>
          let mqtt_client := returns_ on_new_client in
          if camera_initialized then
            match release_camera r log with
            | (Returns _, log) => (Exit 1, camera_initialized, mqtt_client, log)
            | (Raises, log) => (Uncaught, camera_initialized, mqtt_client, log)
            end
          else (Exit 1, camera_initialized, mqtt_client, log)
      end
  end.

(** Lines 330-349, the [finally] clause of the main loop. *)
Definition cleanup (r : release_answers) (on_loop_stop on_disconnect : outcome unit)
  (camera_initialized mqtt_client : bool) : action unit :=
  (if camera_initialized then release_camera r else ret tt) ;;;
  (if mqtt_client
   then perform loop_stop on_loop_stop ;;;
        perform disconnect on_disconnect ;;; ret tt
   else ret tt).

(** *** Notions the properties are stated with *)

Definition returns_ok (o : outcome Z) : bool :=
  match o with Returns r => r =? MV_OK | Raises => false end.

(** Every step of the [try] block of [initialize_camera] goes through. *)
Definition init_ok (a : init_answers) : bool :=
  returns_ (on_Initialize a)
  && match on_EnumDevices a with
     | Returns (ret, nDeviceNum) => (ret =? MV_OK) && negb (nDeviceNum =? 0)
     | Raises => false
     end
  && returns_ok (on_CreateHandle a)
  && returns_ok (on_OpenDevice a)
  && returns_ (on_SetTriggerMode a)
  && returns_ (on_SetTriggerSource a)
  && returns_ok (on_StartGrabbing a).

(** No call of the [except] clause of [initialize_camera] raises. *)
Definition handler_returns (a : init_answers) : bool :=
  match on_IsDeviceConnected a with
  | Returns connected =>
      (if connected then returns_ (on_CloseDevice a) else true)
      && (if cam_handle a then returns_ (on_DestroyHandle a) else true)
      && returns_ (on_Finalize a)
  | Raises => false
  end.

(** No call of the first part of [reconnect_camera] raises. *)
Definition teardown_returns (t : teardown_answers) : bool :=
  match was_connected t with
  | Returns connected =>
      (if connected
       then returns_ (on_StopGrabbing t) && returns_ (on_Close t) else true)
      && (if had_handle t then returns_ (on_Destroy t) else true)
  | Raises => false
  end.

(** The calls of the [try] block of [initialize_camera] when all go through. *)
Definition init_calls : list sdk_call :=
  [MV_CC_Initialize; MV_CC_EnumDevices; MV_CC_CreateHandle; MV_CC_OpenDevice;
   MV_CC_SetEnumValue "TriggerMode"; MV_CC_SetEnumValue "TriggerSource";
   MV_CC_StartGrabbing].

(** How many calls of the [try] block of [initialize_camera] are made: the
    block stops at the first call that raises or whose code is refused. *)
Definition reached (a : init_answers) : nat :=
  if negb (returns_ (on_Initialize a)) then 1
  else if negb match on_EnumDevices a with
               | Returns (ret, nDeviceNum) => (ret =? MV_OK) && negb (nDeviceNum =? 0)
               | Raises => false
               end then 2
  else if negb (returns_ok (on_CreateHandle a)) then 3
  else if negb (returns_ok (on_OpenDevice a)) then 4
  else if negb (returns_ (on_SetTriggerMode a)) then 5
  else if negb (returns_ (on_SetTriggerSource a)) then 6
  else 7.

(** The calls of the [except] clause of [initialize_camera] when none
    raises. *)
Definition handler_calls (a : init_answers) : list sdk_call :=
  [MV_CC_IsDeviceConnected]
  ++ match on_IsDeviceConnected a with
     | Returns true => [MV_CC_CloseDevice]
     | _ => []
     end
  ++ (if cam_handle a then [MV_CC_DestroyHandle] else [])
  ++ [MV_CC_Finalize].

(** The calls of the first part of [reconnect_camera] when none raises. *)
Definition teardown_calls (t : teardown_answers) : list sdk_call :=
  [MV_CC_IsDeviceConnected]
  ++ match was_connected t with
     | Returns true => [MV_CC_StopGrabbing; MV_CC_CloseDevice]
     | _ => []
     end
  ++ (if had_handle t then [MV_CC_DestroyHandle] else [])
  ++ [time_sleep 1].

(** No call of the release of the camera raises. *)
Definition release_returns (r : release_answers) : bool :=
  returns_ (on_Stop r) && returns_ (on_CloseDevice' r)
  && returns_ (on_DestroyHandle' r) && returns_ (on_Finalize' r).

(** The calls of the release of the camera when none raises. *)
Definition release_calls : list sdk_call :=
  [MV_CC_StopGrabbing; MV_CC_CloseDevice; MV_CC_DestroyHandle; MV_CC_Finalize].

(** An action that only adds calls to those made before, and whose outcome
    does not depend on them. *)
Definition uniform {A : Type} (m : action A) : Prop :=
  forall log, m log = (fst (m []), log ++ snd (m [])).

End Camera.

(* ================================================================== *)
(** * Properties *)

(** ** Characters and the clean-up *)

Lemma upper_char_of_alnum (c : N) :
  Chars.is_alnum c = true -> Chars.is_upper_alnum (Chars.upper_char c) = true.
Proof.
  unfold Chars.is_alnum, Chars.is_upper_alnum, Chars.upper_char,
    Chars.is_lower, Chars.is_upper, Chars.is_digit.
  intros H.
  destruct ((97 <=? c)%N && (c <=? 122)%N) eqn:Hl.
  - apply andb_true_iff in Hl as [H1 H2].
    apply N.leb_le in H1, H2.
    apply orb_true_iff; left. apply andb_true_iff.
    split; apply N.leb_le; lia.
  - exact H.
Qed.

Lemma upper_alnum_is_alnum (c : N) :
  Chars.is_upper_alnum c = true -> Chars.is_alnum c = true.
Proof.
  unfold Chars.is_alnum, Chars.is_upper_alnum. intros H.
  apply orb_true_iff in H as [H | H]; rewrite H;
    rewrite ?orb_true_r; reflexivity.
Qed.

Lemma upper_char_of_upper_alnum (c : N) :
  Chars.is_upper_alnum c = true -> Chars.upper_char c = c.
Proof.
  unfold Chars.is_upper_alnum, Chars.upper_char,
    Chars.is_lower, Chars.is_upper, Chars.is_digit.
  intros H.
  destruct ((97 <=? c)%N && (c <=? 122)%N) eqn:Hl; [ | reflexivity ].
  apply andb_true_iff in Hl as [H1 H2]. apply N.leb_le in H1, H2.
  apply orb_true_iff in H as [H | H];
    apply andb_true_iff in H as [H3 H4]; apply N.leb_le in H3, H4; lia.
Qed.

Lemma cleaned_code_upper_alnum (s : pystr) : upper_alnum (cleaned_code s).
Proof.
  unfold upper_alnum, cleaned_code, upper, re_sub_non_alnum.
  induction s as [ | c s IH]; simpl; [ constructor | ].
  destruct (Chars.is_alnum c) eqn:Hc; simpl; [ | exact IH ].
  constructor; [ apply upper_char_of_alnum; exact Hc | exact IH ].
Qed.

Lemma cleaned_code_fixpoint (s : pystr) : upper_alnum s -> cleaned_code s = s.
Proof.
  unfold upper_alnum, cleaned_code, upper, re_sub_non_alnum.
  induction 1 as [ | c s Hc _ IH]; simpl; [ reflexivity | ].
  rewrite (upper_alnum_is_alnum _ Hc). simpl.
  rewrite (upper_char_of_upper_alnum _ Hc), IH. reflexivity.
Qed.

Lemma cleaned_code_idempotent (s : pystr) :
  cleaned_code (cleaned_code s) = cleaned_code s.
Proof. apply cleaned_code_fixpoint, cleaned_code_upper_alnum. Qed.

Lemma startswith_prefix (s p : pystr) :
  startswith s p = true <-> exists rest, s = p ++ rest.
Proof.
  revert s. induction p as [ | c p IH]; intros s; simpl.
  - split; [ intros _; exists s; reflexivity | intros _; destruct s; reflexivity ].
  - destruct s as [ | d s].
    + split; [ discriminate | intros [rest H]; discriminate ].
    + rewrite andb_true_iff, N.eqb_eq, IH. split.
      * intros [-> [rest ->]]. exists rest. reflexivity.
      * intros [rest H]. injection H as -> ->. split; [ reflexivity | ].
        exists rest. reflexivity.
Qed.

Lemma Forall_app_r {A} (P : A -> Prop) (l1 l2 : list A) :
  Forall P (l1 ++ l2) -> Forall P l2.
Proof. intros H. apply Forall_app in H. apply H. Qed.

(** ** fix_code *)

Section NormalizerFacts.
Variable enable : bool.
Variable prefix : pystr.
Variable length_ : Z.

(** What [fix_code] returns for a string is empty or the cleaned string. *)
Lemma fix_code_cfg_cases (s : pystr) :
  fix_code_cfg enable prefix length_ (PyStr s) = []
  \/ fix_code_cfg enable prefix length_ (PyStr s) = cleaned_code s.
Proof.
  unfold fix_code_cfg. cbv zeta.
  destruct enable; [ | right; reflexivity ].
  destruct (startswith _ _ && _); [ right | left ]; reflexivity.
Qed.

(** An accepted code is a fixed point. *)
Lemma fix_code_cfg_accepted (code : pyval) :
  fix_code_cfg enable prefix length_ code <> [] ->
  fix_code_cfg enable prefix length_
    (PyStr (fix_code_cfg enable prefix length_ code))
  = fix_code_cfg enable prefix length_ code.
Proof.
  destruct code as [ | | | | | s | ]; try (intros H; now elim H).
  unfold fix_code_cfg. cbv zeta. destruct enable.
  - destruct (startswith (cleaned_code s) prefix && (len (cleaned_code s) =? length_))
      eqn:Hok; [ | intros H; now elim H ].
    intros _. rewrite cleaned_code_idempotent, Hok. reflexivity.
  - intros _. apply cleaned_code_idempotent.
Qed.

Lemma fix_code_cfg_non_string (code : pyval) :
  isinstance_str code = false -> fix_code_cfg enable prefix length_ code = [].
Proof. destruct code; simpl; intros H; try reflexivity; discriminate. Qed.

End NormalizerFacts.

(** C1 (as amended): under the script's constants (filter on, prefix "LKTT",
    length 10) [fix_code] returns a non-empty value only for a string whose
    cleaned form (non-alphanumerics removed, upper-cased) is the prefix
    followed by upper-case letters and digits, 10 characters in all, and then
    returns that cleaned form; every such string is accepted.  So
    ["lktt123456"] gives ["LKTT123456"], while ["lktt12345"] (9 characters
    once cleaned), ["LKTT123"] and ["XXTT123456"] are rejected. *)
Theorem fix_code_accepts_only_prefixed_codes (code : pyval) :
  (fix_code code <> [] ->
   exists s rest,
     code = PyStr s /\ fix_code code = cleaned_code s /\
     cleaned_code s = CODE_PREFIX ++ rest /\ upper_alnum rest /\
     len (cleaned_code s) = CODE_LENGTH)
  /\ (forall s rest,
        cleaned_code s = CODE_PREFIX ++ rest -> len (cleaned_code s) = CODE_LENGTH ->
        fix_code (PyStr s) = cleaned_code s)
  /\ fix_code (PyStr (str "lktt123456")) = str "LKTT123456"
  /\ fix_code (PyStr (str "lktt12345")) = []
  /\ fix_code (PyStr (str "LKTT123")) = []
  /\ fix_code (PyStr (str "XXTT123456")) = [].
Proof.
  split; [ | split; [ | repeat split; reflexivity ] ].
  - destruct code as [ | | | | | s | ]; try (intros H; now elim H).
    unfold fix_code, fix_code_cfg, ENABLE_CODE_FILTER. cbv zeta.
    destruct (startswith (cleaned_code s) CODE_PREFIX) eqn:Hp;
      [ | intros H; now elim H ].
    destruct (len (cleaned_code s) =? CODE_LENGTH) eqn:Hl;
      [ | intros H; now elim H ].
    intros _. apply startswith_prefix in Hp as [rest Hrest].
    exists s, rest. repeat split; try assumption.
    + apply (Forall_app_r _ CODE_PREFIX). rewrite <- Hrest.
      apply cleaned_code_upper_alnum.
    + apply Z.eqb_eq. exact Hl.
  - intros s rest Hrest Hlen.
    unfold fix_code, fix_code_cfg, ENABLE_CODE_FILTER. cbv zeta.
    rewrite (proj2 (startswith_prefix _ _) (ex_intro _ rest Hrest)).
    rewrite (proj2 (Z.eqb_eq _ _) Hlen). reflexivity.
Qed.

Lemma fix_code_accepts_only_prefixed_codes_witness :
  fix_code (PyStr (str "lk-tt 123456")) <> [] /\
  exists s rest,
    PyStr (str "lk-tt 123456") = PyStr s /\
    fix_code (PyStr (str "lk-tt 123456")) = cleaned_code s /\
    cleaned_code s = CODE_PREFIX ++ rest /\ upper_alnum rest /\
    len (cleaned_code s) = CODE_LENGTH.
Proof.
  split; [ vm_compute; discriminate | ].
  apply (proj1 (fix_code_accepts_only_prefixed_codes (PyStr (str "lk-tt 123456")))).
  vm_compute; discriminate.
Defined.

(** C1 as stated fails: ["lktt12345"] cleans to the 9 characters
    ["LKTT12345"], which the length test rejects. *)
Lemma fix_code_rejects_nine_characters :
  fix_code (PyStr (str "lktt12345")) = [] /\
  fix_code (PyStr (str "lktt12345")) <> str "LKTT12345".
Proof. split; [ reflexivity | vm_compute; discriminate ]. Qed.

(** C9: [fix_code] is idempotent, whatever the three constants are: applied
    to its own output, the empty rejection value included, it returns that
    output. *)
Theorem fix_code_idempotent (enable : bool) (prefix : pystr) (length_ : Z)
  (code : pyval) :
  fix_code_cfg enable prefix length_ (PyStr (fix_code_cfg enable prefix length_ code))
  = fix_code_cfg enable prefix length_ code
  /\ fix_code (PyStr (fix_code code)) = fix_code code.
Proof.
  assert (G : forall e p l,
             fix_code_cfg e p l (PyStr (fix_code_cfg e p l code))
             = fix_code_cfg e p l code).
  { intros e p l.
    destruct (pystr_eq_dec (fix_code_cfg e p l code) []) as [E | NE].
    - rewrite E.
      destruct (fix_code_cfg_cases e p l []) as [H | H]; exact H.
    - apply fix_code_cfg_accepted. exact NE. }
  split; apply G.
Qed.

(** C10: [fix_code] returns the empty string for every argument that is not
    a string, whatever the constants are, and the recognition loop then
    leaves [results] as it was: such a text goes no further. *)
Theorem fix_code_rejects_non_strings (enable : bool) (prefix : pystr)
  (length_ : Z) (code : pyval) (H : forall s, code <> PyStr s) :
  fix_code_cfg enable prefix length_ code = []
  /\ fix_code code = []
  /\ forall results conf,
       visit_word_cfg enable prefix length_ results
         {| text := code; confidence := conf |} = results.
Proof.
  assert (G : forall e p l, fix_code_cfg e p l code = []).
  { intros e p l. apply fix_code_cfg_non_string.
    destruct code; try reflexivity. now elim (H s). }
  repeat split; try apply G.
  intros results conf. unfold visit_word_cfg. simpl.
  rewrite G. simpl. destruct (PrimFloat.ltb _ _); reflexivity.
Qed.

Lemma fix_code_rejects_non_strings_witness :
  (forall s, PyInt 1234567890 <> PyStr s)
  /\ fix_code_cfg false CODE_PREFIX CODE_LENGTH (PyInt 1234567890) = []
  /\ fix_code (PyInt 1234567890) = []
  /\ forall results conf,
       visit_word_cfg false CODE_PREFIX CODE_LENGTH results
         {| text := PyInt 1234567890; confidence := conf |} = results.
Proof.
  split; [ intros s; discriminate | ].
  apply (fix_code_rejects_non_strings false CODE_PREFIX CODE_LENGTH (PyInt 1234567890)).
  intros s; discriminate.
Defined.

(** ** Counter *)

Lemma keys_counter_incr_old (x : pystr) (c : counter) :
  In x (keys c) -> keys (counter_incr x c) = keys c.
Proof.
  unfold keys. induction c as [ | [k n] c IH]; simpl; [ intros [] | ].
  destruct (pystr_eq_dec x k) as [-> | NE]; simpl; [ reflexivity | ].
  intros [E | Hin]; [ now elim NE | ]. rewrite (IH Hin). reflexivity.
Qed.

Lemma keys_counter_incr_new (x : pystr) (c : counter) :
  ~ In x (keys c) -> keys (counter_incr x c) = keys c ++ [x].
Proof.
  unfold keys. induction c as [ | [k n] c IH]; simpl; [ reflexivity | ].
  intros Hout. destruct (pystr_eq_dec x k) as [-> | NE]; simpl.
  - elim Hout. left; reflexivity.
  - rewrite IH; [ reflexivity | ]. intros Hin. apply Hout. right; exact Hin.
Qed.

Lemma keys_counter_incr (x : pystr) (c : counter) :
  keys (counter_incr x c)
  = if in_dec pystr_eq_dec x (keys c) then keys c else keys c ++ [x].
Proof.
  destruct (in_dec pystr_eq_dec x (keys c)) as [Hin | Hout].
  - apply keys_counter_incr_old, Hin.
  - apply keys_counter_incr_new, Hout.
Qed.

Lemma count_of_counter_incr (y x : pystr) (c : counter) :
  count_of y (counter_incr x c)
  = count_of y c + (if pystr_eq_dec x y then 1 else 0).
Proof.
  induction c as [ | [k n] c IH]; simpl.
  - destruct (pystr_eq_dec y x) as [-> | NE].
    + destruct (pystr_eq_dec x x) as [ _ | NE ]; [ reflexivity | now elim NE ].
    + destruct (pystr_eq_dec x y) as [E | _]; [ now elim NE | reflexivity ].
  - destruct (pystr_eq_dec x k) as [-> | NE]; simpl.
    + destruct (pystr_eq_dec y k) as [-> | NE'].
      * destruct (pystr_eq_dec k k) as [ _ | NE ]; [ reflexivity | now elim NE ].
      * destruct (pystr_eq_dec k y) as [E | _]; [ now elim NE' | lia ].
    + destruct (pystr_eq_dec y k) as [-> | NE'].
      * destruct (pystr_eq_dec x k) as [E | _]; [ now elim NE | lia ].
      * exact IH.
Qed.

Lemma count_of_entry (c : counter) (k : pystr) (n : Z) :
  NoDup (keys c) -> In (k, n) c -> count_of k c = n.
Proof.
  unfold keys. induction c as [ | [k' n'] c IH]; simpl; [ intros _ [] | ].
  intros ND [E | Hin].
  - injection E as -> ->.
    destruct (pystr_eq_dec k k) as [ _ | NE ]; [ reflexivity | now elim NE ].
  - inversion ND as [ | ? ? Hk ND' ]; subst.
    destruct (pystr_eq_dec k k') as [-> | _]; [ | apply IH; assumption ].
    elim Hk. change k' with (fst (k', n)). apply in_map. exact Hin.
Qed.

Lemma Counter_snoc (xs : list pystr) (x : pystr) :
  Counter (xs ++ [x]) = counter_incr x (Counter xs).
Proof. unfold Counter. rewrite fold_left_app. reflexivity. Qed.

Lemma occurrences_snoc (y x : pystr) (xs : list pystr) :
  occurrences y (xs ++ [x])
  = occurrences y xs + (if pystr_eq_dec x y then 1 else 0).
Proof.
  unfold occurrences. rewrite count_occ_app. simpl.
  destruct (pystr_eq_dec x y); lia.
Qed.

Lemma count_of_Counter (y : pystr) (xs : list pystr) :
  count_of y (Counter xs) = occurrences y xs.
Proof.
  induction xs as [ | x xs IH] using rev_ind; [ reflexivity | ].
  rewrite Counter_snoc, count_of_counter_incr, occurrences_snoc, IH.
  reflexivity.
Qed.

Lemma keys_Counter_snoc (xs : list pystr) (x : pystr) :
  keys (Counter (xs ++ [x]))
  = if in_dec pystr_eq_dec x (keys (Counter xs))
    then keys (Counter xs) else keys (Counter xs) ++ [x].
Proof. rewrite Counter_snoc. apply keys_counter_incr. Qed.

Lemma keys_Counter_In (y : pystr) (xs : list pystr) :
  In y (keys (Counter xs)) <-> In y xs.
Proof.
  induction xs as [ | x xs IH] using rev_ind; [ reflexivity | ].
  rewrite keys_Counter_snoc.
  destruct (in_dec pystr_eq_dec x (keys (Counter xs))) as [Hin | Hout].
  - rewrite in_app_iff, IH. simpl. split; [ tauto | ].
    intros [H | [<- | []]]; [ exact H | apply IH; exact Hin ].
  - rewrite !in_app_iff, IH. reflexivity.
Qed.

Lemma keys_Counter_NoDup (xs : list pystr) : NoDup (keys (Counter xs)).
Proof.
  induction xs as [ | x xs IH] using rev_ind; [ constructor | ].
  rewrite keys_Counter_snoc.
  destruct (in_dec pystr_eq_dec x (keys (Counter xs))) as [Hin | Hout];
    [ exact IH | ].
  apply NoDup_rev in IH. rewrite <- (rev_involutive (_ ++ [x])).
  apply NoDup_rev. rewrite rev_app_distr. simpl.
  constructor; [ rewrite <- in_rev; exact Hout | exact IH ].
Qed.

Lemma Counter_entry (xs : list pystr) (k : pystr) (n : Z) :
  In (k, n) (Counter xs) -> n = occurrences k xs /\ In k xs.
Proof.
  intros Hin. split.
  - rewrite <- count_of_Counter. symmetry.
    apply count_of_entry; [ apply keys_Counter_NoDup | exact Hin ].
  - apply keys_Counter_In. change k with (fst (k, n)).
    apply in_map. exact Hin.
Qed.

Lemma Counter_has_entry (xs : list pystr) (k : pystr) :
  In k xs -> In (k, occurrences k xs) (Counter xs).
Proof.
  intros Hin. apply keys_Counter_In in Hin. unfold keys in Hin.
  apply in_map_iff in Hin as [[k' n] [E Hin]]. simpl in E. subst k'.
  destruct (Counter_entry _ _ _ Hin) as [-> _]. exact Hin.
Qed.

(** The keys of the counter stand in the order of first occurrence. *)
Lemma keys_Counter_order (xs : list pystr) (a b : pystr) :
  before a b (keys (Counter xs)) -> before a b xs.
Proof.
  induction xs as [ | x xs IH] using rev_ind.
  - intros (l1 & l2 & E & _). destruct l1; discriminate.
  - rewrite keys_Counter_snoc.
    destruct (in_dec pystr_eq_dec x (keys (Counter xs))) as [Hin | Hout].
    + intros H. destruct (IH H) as (l1 & l2 & -> & Hb & Ha).
      exists l1, (l2 ++ [x]). rewrite <- app_assoc. auto.
    + intros (k1 & k2 & E & Hb & Ha).
      destruct k2 as [ | y k2 _] using rev_ind.
      * apply app_inj_tail in E as [E ->]. subst k1.
        exists xs, []. repeat split.
        -- rewrite <- keys_Counter_In. exact Hout.
        -- apply keys_Counter_In. exact Ha.
      * rewrite app_comm_cons, app_assoc in E.
        apply app_inj_tail in E as [E _].
        destruct (IH (ex_intro _ k1 (ex_intro _ k2 (conj E (conj Hb Ha)))))
          as (l1 & l2 & -> & Hb' & Ha').
        exists l1, (l2 ++ [x]). rewrite <- app_assoc. auto.
Qed.

(** ** max *)

Lemma max_by_count_bound (it : counter) (best : pystr * Z) :
  snd best <= snd (max_by_count best it) /\
  forall e, In e it -> snd e <= snd (max_by_count best it).
Proof.
  revert best. induction it as [ | item rest IH]; intros best; simpl.
  - split; [ lia | intros e [] ].
  - destruct (IH (if snd best <? snd item then item else best)) as [H1 H2].
    destruct (Z.ltb_spec (snd best) (snd item)).
    + split; [ lia | ]. intros e [<- | He]; [ exact H1 | apply H2, He ].
    + split; [ exact H1 | ]. intros e [<- | He]; [ lia | apply H2, He ].
Qed.

Lemma max_by_count_In (it : counter) (best : pystr * Z) :
  In (max_by_count best it) (best :: it).
Proof.
  revert best. induction it as [ | item rest IH]; intros best; simpl.
  - left; reflexivity.
  - destruct (IH (if snd best <? snd item then item else best)) as [H | H].
    + destruct (snd best <? snd item); auto.
    + auto.
Qed.

(** [max] returns the first of the items with the greatest count. *)
Lemma max_by_count_first (it : counter) (best : pystr * Z) :
  forall l1 e l2,
    best :: it = l1 ++ e :: l2 ->
    snd (max_by_count best it) <= snd e ->
    e = max_by_count best it \/ In (max_by_count best it) l1.
Proof.
  revert best. induction it as [ | item rest IH]; intros best l1 e l2 E Hle.
  - simpl. destruct l1 as [ | x l1].
    + injection E as <- _. left; reflexivity.
    + injection E as _ E. destruct l1; discriminate.
  - simpl in *.
    destruct (Z.ltb_spec (snd best) (snd item)) as [Hlt | Hge].
    + (* the running maximum becomes [item] *)
      destruct (max_by_count_bound rest item) as [Hb _].
      destruct l1 as [ | x l1].
      * injection E as <- _. lia.
      * injection E as <- E. destruct l1 as [ | y l1].
        -- injection E as <- <-.
           destruct (IH item [] item rest eq_refl Hle) as [H | []].
           left; exact H.
        -- injection E as <- E.
           destruct (IH item (item :: l1) e l2) as [H | [H | H]].
           ++ simpl. rewrite E. reflexivity.
           ++ exact Hle.
           ++ left; exact H.
           ++ right. rewrite <- H. simpl; auto.
           ++ right. simpl; auto.
    + (* the running maximum stays [best] *)
      destruct (max_by_count_bound rest best) as [Hb _].
      destruct l1 as [ | x l1].
      * injection E as <- _.
        destruct (IH best [] best rest eq_refl Hle) as [H | []].
        left; exact H.
      * injection E as <- E. destruct l1 as [ | y l1].
        -- injection E as <- <-.
           destruct (IH best [] best rest eq_refl) as [H | []]; [ lia | ].
           right. left. exact H.
        -- injection E as <- E.
           destruct (IH best (best :: l1) e l2) as [H | [H | H]].
           ++ simpl. rewrite E. reflexivity.
           ++ exact Hle.
           ++ left; exact H.
           ++ right. rewrite <- H. simpl; auto.
           ++ right. simpl; auto.
Qed.

(** ** The vote *)

Lemma Counter_nonempty (x : pystr) (xs : list pystr) : Counter (x :: xs) <> [].
Proof.
  intros E. assert (H : In x (keys (Counter (x :: xs)))).
  { apply keys_Counter_In. left; reflexivity. }
  rewrite E in H. exact H.
Qed.

Lemma occurrences_pos (x : pystr) (xs : list pystr) :
  In x xs <-> 0 < occurrences x xs.
Proof.
  unfold occurrences. rewrite (count_occ_In pystr_eq_dec). lia.
Qed.

Lemma vote_spec (results : list pystr) :
  results <> [] ->
  exists r,
    vote results = Returns (Some r)
    /\ In r results
    /\ (forall x, occurrences x results <= occurrences r results)
    /\ (forall x, x <> r -> occurrences x results = occurrences r results ->
                  before r x results).
Proof.
  destruct results as [ | x0 xs]; [ intros H; now elim H | intros _ ].
  set (results := x0 :: xs).
  unfold vote. fold results.
  destruct (Counter results) as [ | item rest] eqn:EC;
    [ now elim (Counter_nonempty x0 xs) | ].
  simpl.
  pose proof (max_by_count_In rest item) as Hin.
  pose proof (max_by_count_bound rest item) as [Hb1 Hb2].
  pose proof (max_by_count_first rest item) as Hfirst.
  destruct (max_by_count item rest) as [r n] eqn:Em.
  rewrite <- EC in Hin.
  destruct (Counter_entry _ _ _ Hin) as [Hn Hr].
  assert (Hmax : forall e, In e (Counter results) -> snd e <= n).
  { intros e He. rewrite EC in He. destruct He as [<- | He];
      [ exact Hb1 | apply (Hb2 _ He) ]. }
  exists r. repeat split.
  - exact Hr.
  - intros x. destruct (in_dec pystr_eq_dec x results) as [Hx | Hx].
    + rewrite <- Hn. apply (Hmax (x, occurrences x results)).
      apply Counter_has_entry, Hx.
    + apply occurrences_pos in Hr.
      assert (occurrences x results = 0).
      { unfold occurrences.
        rewrite (proj1 (count_occ_not_In pystr_eq_dec results x) Hx).
        reflexivity. }
      lia.
  - intros x Hne Htie.
    assert (Hx : In x results).
    { apply occurrences_pos. rewrite Htie. apply occurrences_pos, Hr. }
    apply Counter_has_entry in Hx.
    destruct (in_split _ _ Hx) as (l1 & l2 & Esplit).
    apply keys_Counter_order.
    exists (keys l1), (keys l2).
    assert (Ek : keys (Counter results) = keys l1 ++ x :: keys l2).
    { rewrite Esplit. unfold keys. rewrite map_app. reflexivity. }
    split; [ exact Ek | ].
    split.
    + pose proof (keys_Counter_NoDup results) as ND. rewrite Ek in ND.
      apply NoDup_remove_2 in ND. intros Hl1. apply ND.
      apply in_or_app. left; exact Hl1.
    + destruct (Hfirst l1 (x, occurrences x results) l2) as [E | Hl1].
      * rewrite <- EC. exact Esplit.
      * simpl. lia.
      * injection E as E _. now elim Hne.
      * change r with (fst (r, n)). apply in_map. exact Hl1.
Qed.

(** ** The recognition loop *)

Section RecognitionFacts.
Variable enable : bool.
Variable prefix : pystr.
Variable length_ : Z.

Lemma visit_word_accepted (results : list pystr) (w : word_info) :
  Forall (accepted enable prefix length_) results ->
  Forall (accepted enable prefix length_)
    (visit_word_cfg enable prefix length_ results w).
Proof.
  intros H. unfold visit_word_cfg. cbv zeta.
  destruct (PrimFloat.ltb _ _); [ | exact H ].
  destruct (fix_code_cfg enable prefix length_ (text w)) as [ | c r] eqn:E;
    simpl; [ exact H | ].
  apply Forall_app. split; [ exact H | ].
  constructor; [ | constructor ].
  split; [ discriminate | ]. exists (text w). symmetry; exact E.
Qed.

Lemma visit_words_accepted (words : list word_info) (results : list pystr) :
  Forall (accepted enable prefix length_) results ->
  Forall (accepted enable prefix length_)
    (fold_left (visit_word_cfg enable prefix length_) words results).
Proof.
  revert results. induction words as [ | w words IH]; intros results H; simpl.
  - exact H.
  - apply IH, visit_word_accepted, H.
Qed.

Lemma visit_lines_accepted (lines : list (option (list word_info)))
  (results : list pystr) :
  Forall (accepted enable prefix length_) results ->
  Forall (accepted enable prefix length_)
    (fold_left (visit_line_cfg enable prefix length_) lines results).
Proof.
  revert results. induction lines as [ | line lines IH]; intros results H; simpl.
  - exact H.
  - apply IH. destruct line as [words | ]; simpl;
      [ apply visit_words_accepted, H | exact H ].
Qed.

Lemma collect_results_accepted (ocr_results : ocr_output) :
  Forall (accepted enable prefix length_)
    (collect_results_cfg enable prefix length_ ocr_results).
Proof.
  unfold collect_results_cfg.
  destruct ocr_results as [[ | line lines] | ]; try constructor.
  apply visit_lines_accepted. constructor.
Qed.

(** The recognition never raises: [most_common(1)] is indexed only when
    [results] is not empty. *)
Lemma recognise_cfg_returns (ocr_results : ocr_output) :
  exists r, recognise_cfg enable prefix length_ ocr_results = Returns r.
Proof.
  unfold recognise_cfg.
  destruct (collect_results_cfg enable prefix length_ ocr_results)
    as [ | x xs] eqn:E.
  - exists None. reflexivity.
  - destruct (vote_spec (x :: xs)) as (r & Hr & _); [ discriminate | ].
    exists (Some r). exact Hr.
Qed.

End RecognitionFacts.

(** C8: when the list of surviving normalised detections is not empty, the
    aggregation returns a value of that list with the greatest number of
    occurrences, and among values with that same number the one met first
    in detection order. *)
Theorem vote_returns_first_most_frequent (enable : bool) (prefix : pystr)
  (length_ : Z) (ocr_results : ocr_output)
  (H : collect_results_cfg enable prefix length_ ocr_results <> []) :
  let results := collect_results_cfg enable prefix length_ ocr_results in
  exists r,
    recognise_cfg enable prefix length_ ocr_results = Returns (Some r)
    /\ In r results
    /\ (forall x, occurrences x results <= occurrences r results)
    /\ (forall x, x <> r -> occurrences x results = occurrences r results ->
                  before r x results).
Proof. cbv zeta. unfold recognise_cfg. apply vote_spec, H. Qed.

Lemma vote_returns_first_most_frequent_witness :
  let ocr_results :=
    Some [Some [detection "b" 0.9%float; detection "a" 0.85%float;
                detection "a" 0.95%float; detection "b" 0.81%float]] in
  let results := collect_results_cfg false CODE_PREFIX CODE_LENGTH ocr_results in
  results = [str "B"; str "A"; str "A"; str "B"] /\
  exists r,
    recognise_cfg false CODE_PREFIX CODE_LENGTH ocr_results = Returns (Some r)
    /\ In r results
    /\ (forall x, occurrences x results <= occurrences r results)
    /\ (forall x, x <> r -> occurrences x results = occurrences r results ->
                  before r x results).
Proof.
  cbv zeta. split; [ reflexivity | ].
  apply (vote_returns_first_most_frequent false CODE_PREFIX CODE_LENGTH).
  vm_compute; discriminate.
Defined.

(** C6: a code the aggregation returns is one [fix_code] accepts: it is not
    the empty rejection value and [fix_code] maps it to itself.  This holds
    for every answer of the OCR engine and whatever the three constants are;
    [aggregate] is the case of one line of detections. *)
Theorem aggregate_returns_accepted_code (enable : bool) (prefix : pystr)
  (length_ : Z) (ocr_results : ocr_output) (code : pystr)
  (H : recognise_cfg enable prefix length_ ocr_results = Returns (Some code)) :
  code <> [] /\ fix_code_cfg enable prefix length_ (PyStr code) = code.
Proof.
  unfold recognise_cfg in H.
  pose proof (collect_results_accepted enable prefix length_ ocr_results) as Hacc.
  destruct (collect_results_cfg enable prefix length_ ocr_results)
    as [ | x xs] eqn:E; [ discriminate | ].
  destruct (vote_spec (x :: xs)) as (r & Hr & Hin & _); [ discriminate | ].
  rewrite Hr in H. injection H as <-.
  rewrite Forall_forall in Hacc. destruct (Hacc r Hin) as [Hne [v ->]].
  split; [ exact Hne | ]. apply fix_code_cfg_accepted. exact Hne.
Qed.

Lemma aggregate_returns_accepted_code_witness :
  let ocr_results :=
    Some [Some [detection "LKTT654321" 0.99%float;
                detection "lktt-123456" 0.9%float;
                detection "LKTT123456" 0.95%float]] in
  recognise ocr_results = Returns (Some (str "LKTT123456")) /\
  str "LKTT123456" <> [] /\
  fix_code (PyStr (str "LKTT123456")) = str "LKTT123456".
Proof.
  cbv zeta. split; [ reflexivity | ].
  apply (aggregate_returns_accepted_code ENABLE_CODE_FILTER CODE_PREFIX CODE_LENGTH
           (Some [Some [detection "LKTT654321" 0.99%float;
                        detection "lktt-123456" 0.9%float;
                        detection "LKTT123456" 0.95%float]])).
  reflexivity.
Defined.

(** C4 (as amended): with threshold 0.8 and the filter on (prefix "LKTT",
    length 10) the detections ["LKTT12345"] 0.9, ["lktt12345"] 0.85,
    ["other"] 0.95 give no code, the two candidates being 9 characters long;
    with the 10-character ["LKTT123456"] and ["lktt123456"] in their place
    the aggregation returns ["LKTT123456"], two matches against one rejected
    candidate. *)
Theorem aggregate_example :
  aggregate [detection "LKTT12345" 0.9%float; detection "lktt12345" 0.85%float;
             detection "other" 0.95%float] = Returns None
  /\ aggregate [detection "LKTT123456" 0.9%float; detection "lktt123456" 0.85%float;
                detection "other" 0.95%float] = Returns (Some (str "LKTT123456"))
  /\ collect_results
       (Some [Some [detection "LKTT123456" 0.9%float;
                    detection "lktt123456" 0.85%float;
                    detection "other" 0.95%float]])
     = [str "LKTT123456"; str "LKTT123456"].
Proof. repeat split; reflexivity. Qed.

(** C4 as stated fails: the aggregation of the three detections returns no
    code. *)
Lemma aggregate_example_returns_none :
  aggregate [detection "LKTT12345" 0.9%float; detection "lktt12345" 0.85%float;
             detection "other" 0.95%float]
  <> Returns (Some (str "LKTT12345")).
Proof. vm_compute. discriminate. Qed.

(** ** capture_and_ocr: the failure counter and the buffer *)

(** A failed fetch: the counter goes up by one, [reconnect_camera] is called
    when it has reached [CAMERA_MAX_FAILURES], nothing is released. *)
Lemma capture_on_failure (cf : Z) (w : responses) :
  fetch_fails w = true ->
  capture_and_ocr cf w
  = (if CAMERA_MAX_FAILURES <=? cf + 1
     then if on_reconnect w then 0 else cf + 1
     else cf + 1,
     None,
     [MV_CC_SetCommandValue "TriggerSoftware";
      MV_CC_GetImageBuffer CAMERA_TRIGGER_TIMEOUT_MS]
     ++ (if CAMERA_MAX_FAILURES <=? cf + 1 then [reconnect_camera] else [])).
Proof.
  unfold fetch_fails, capture_and_ocr, try_block.
  destruct (on_trigger w) as [u | ]; [ | discriminate ].
  destruct (on_fetch w) as [ret | ]; [ | discriminate ].
  intros Hne. rewrite Hne. cbv zeta.
  apply negb_true_iff in Hne.
  destruct (CAMERA_MAX_FAILURES <=? cf + 1).
  - destruct (on_reconnect w); cbv iota; rewrite Hne; reflexivity.
  - cbv iota. rewrite Hne. reflexivity.
Qed.

(** A successful fetch: the counter is set to zero and the buffer is
    released last, whether the processing returned or raised. *)
Lemma capture_on_success (cf : Z) (w : responses) :
  fetch_succeeds w = true ->
  counter_after cf w = 0 /\
  exists calls,
    calls_of cf w = calls ++ [MV_CC_FreeImageBuffer]
    /\ (calls = [MV_CC_SetCommandValue "TriggerSoftware";
                 MV_CC_GetImageBuffer CAMERA_TRIGGER_TIMEOUT_MS]
        \/ calls = [MV_CC_SetCommandValue "TriggerSoftware";
                    MV_CC_GetImageBuffer CAMERA_TRIGGER_TIMEOUT_MS; ocr_ocr]).
Proof.
  unfold fetch_succeeds, counter_after, calls_of, capture_and_ocr, try_block.
  destruct (on_trigger w) as [u | ]; [ | discriminate ].
  destruct (on_fetch w) as [ret | ]; [ | discriminate ].
  intros Heq. rewrite Heq. cbv zeta. simpl negb. cbv iota.
  destruct (on_image w) as [u' | ].
  - destruct (on_ocr w) as [ocr_results | ]; cbv iota; rewrite Heq; simpl;
      (split; [ reflexivity | ]);
      exists [MV_CC_SetCommandValue "TriggerSoftware";
              MV_CC_GetImageBuffer CAMERA_TRIGGER_TIMEOUT_MS; ocr_ocr];
      (split; [ reflexivity | right; reflexivity ]).
  - cbv iota. rewrite Heq. simpl.
    split; [ reflexivity | ].
    exists [MV_CC_SetCommandValue "TriggerSoftware";
            MV_CC_GetImageBuffer CAMERA_TRIGGER_TIMEOUT_MS].
    split; [ reflexivity | left; reflexivity ].
Qed.

(** Every call of [capture_and_ocr] starts with the software trigger: a
    pass of the main loop that made no call did not attempt a capture. *)
Lemma capture_and_ocr_triggers (cf : Z) (w : responses) :
  exists calls,
    calls_of cf w = MV_CC_SetCommandValue "TriggerSoftware" :: calls.
Proof.
  unfold calls_of, capture_and_ocr, try_block.
  destruct (on_trigger w) as [u | ]; [ | eexists; reflexivity ].
  destruct (on_fetch w) as [ret | ]; [ | eexists; reflexivity ].
  destruct (negb (ret =? MV_OK)).
  - cbv zeta. destruct (CAMERA_MAX_FAILURES <=? cf + 1);
      [ destruct (on_reconnect w) | ];
      cbv iota; destruct (ret =? MV_OK); eexists; reflexivity.
  - cbv zeta. destruct (on_image w) as [u' | ];
      [ destruct (on_ocr w) as [o | ] | ];
      cbv iota; destruct (ret =? MV_OK); eexists; reflexivity.
Qed.

(** Without an acquired buffer nothing is released. *)
Lemma capture_without_buffer (cf : Z) (w : responses) :
  fetch_succeeds w = false -> ~ In MV_CC_FreeImageBuffer (calls_of cf w).
Proof.
  unfold fetch_succeeds, calls_of, capture_and_ocr, try_block.
  destruct (on_trigger w) as [u | ];
    [ | intros _ [H | []]; discriminate ].
  destruct (on_fetch w) as [ret | ];
    [ | intros _ [H | [H | []]]; discriminate ].
  intros Hne. rewrite Hne. cbv zeta. simpl negb. cbv iota.
  destruct (CAMERA_MAX_FAILURES <=? cf + 1); [ destruct (on_reconnect w) | ];
    cbv iota; rewrite Hne; simpl; intuition discriminate.
Qed.

(** C2: in a run of fetch failures that starts with the counter at zero, the
    first and second failing captures only count, and the third, the counter
    reaching [CAMERA_MAX_FAILURES], calls [reconnect_camera] once, as its
    last call, so before any further capture; the counter is then zero if
    the reconnection succeeded.  Every successful fetch sets the counter to
    zero, and so does every successful reconnection. *)
Theorem reconnect_after_max_failures (w1 w2 w3 : responses)
  (H1 : fetch_fails w1 = true) (H2 : fetch_fails w2 = true)
  (H3 : fetch_fails w3 = true) :
  let trigger := MV_CC_SetCommandValue "TriggerSoftware" in
  let fetch := MV_CC_GetImageBuffer CAMERA_TRIGGER_TIMEOUT_MS in
  captures 0 [w1] = (1, [trigger; fetch])
  /\ captures 0 [w1; w2] = (2, [trigger; fetch; trigger; fetch])
  /\ captures 0 [w1; w2; w3]
     = (if on_reconnect w3 then 0 else CAMERA_MAX_FAILURES,
        [trigger; fetch; trigger; fetch; trigger; fetch; reconnect_camera])
  /\ (forall cf w, fetch_succeeds w = true -> counter_after cf w = 0)
  /\ (forall cf w, fetch_fails w = true ->
                   In reconnect_camera (calls_of cf w) ->
                   on_reconnect w = true -> counter_after cf w = 0).
Proof.
  cbv zeta. unfold captures, counter_after, calls_of.
  rewrite (capture_on_failure 0 w1 H1). simpl.
  rewrite (capture_on_failure 1 w2 H2). simpl.
  rewrite (capture_on_failure 2 w3 H3). simpl.
  split; [ reflexivity | ]. split; [ reflexivity | ].
  split; [ destruct (on_reconnect w3); reflexivity | ].
  split.
  - intros cf w Hw. apply (capture_on_success cf w Hw).
  - intros cf w Hw Hin Hre.
    rewrite (capture_on_failure cf w Hw) in *.
    simpl in *. destruct (CAMERA_MAX_FAILURES <=? cf + 1).
    + rewrite Hre. reflexivity.
    + simpl in Hin. destruct Hin as [H | [H | []]]; discriminate.
Qed.

Lemma reconnect_after_max_failures_witness :
  let busy :=
    {| on_trigger := Returns tt; on_fetch := Returns 2147483655;
       on_reconnect := true; on_image := Returns tt; on_ocr := Raises |} in
  let trigger := MV_CC_SetCommandValue "TriggerSoftware" in
  let fetch := MV_CC_GetImageBuffer CAMERA_TRIGGER_TIMEOUT_MS in
  fetch_fails busy = true /\
  (captures 0 [busy] = (1, [trigger; fetch])
   /\ captures 0 [busy; busy] = (2, [trigger; fetch; trigger; fetch])
   /\ captures 0 [busy; busy; busy]
      = (if on_reconnect busy then 0 else CAMERA_MAX_FAILURES,
         [trigger; fetch; trigger; fetch; trigger; fetch; reconnect_camera])
   /\ (forall cf w, fetch_succeeds w = true -> counter_after cf w = 0)
   /\ (forall cf w, fetch_fails w = true ->
                    In reconnect_camera (calls_of cf w) ->
                    on_reconnect w = true -> counter_after cf w = 0)).
Proof.
  cbv zeta. split; [ reflexivity | ].
  apply (reconnect_after_max_failures
           {| on_trigger := Returns tt; on_fetch := Returns 2147483655;
              on_reconnect := true; on_image := Returns tt; on_ocr := Raises |}
           {| on_trigger := Returns tt; on_fetch := Returns 2147483655;
              on_reconnect := true; on_image := Returns tt; on_ocr := Raises |}
           {| on_trigger := Returns tt; on_fetch := Returns 2147483655;
              on_reconnect := true; on_image := Returns tt; on_ocr := Raises |});
    reflexivity.
Defined.

(** C3: when the fetch returned [MV_OK], [capture_and_ocr] calls
    [MV_CC_FreeImageBuffer] once, after the fetch and as its last call,
    whether the processing that follows returned or raised. *)
Theorem acquired_buffer_is_released (cf : Z) (w : responses)
  (H : fetch_succeeds w = true) :
  exists calls,
    calls_of cf w = calls ++ [MV_CC_FreeImageBuffer]
    /\ In (MV_CC_GetImageBuffer CAMERA_TRIGGER_TIMEOUT_MS) calls
    /\ ~ In MV_CC_FreeImageBuffer calls.
Proof.
  destruct (capture_on_success cf w H) as [_ (calls & E & Hcalls)].
  exists calls. split; [ exact E | ].
  destruct Hcalls as [-> | ->];
    (split; [ simpl; auto | simpl; intuition discriminate ]).
Qed.

Lemma acquired_buffer_is_released_witness :
  let failing_ocr :=
    {| on_trigger := Returns tt; on_fetch := Returns MV_OK;
       on_reconnect := false; on_image := Returns tt; on_ocr := Raises |} in
  fetch_succeeds failing_ocr = true /\
  result_of 0 failing_ocr = None /\
  exists calls,
    calls_of 0 failing_ocr = calls ++ [MV_CC_FreeImageBuffer]
    /\ In (MV_CC_GetImageBuffer CAMERA_TRIGGER_TIMEOUT_MS) calls
    /\ ~ In MV_CC_FreeImageBuffer calls.
Proof.
  cbv zeta. split; [ reflexivity | ]. split; [ reflexivity | ].
  apply (acquired_buffer_is_released 0
           {| on_trigger := Returns tt; on_fetch := Returns MV_OK;
              on_reconnect := false; on_image := Returns tt; on_ocr := Raises |}).
  reflexivity.
Defined.

(** ** The main loop *)

(** C7 (as amended): a fresh trigger is taken from the queue, the capture
    succeeds and the OCR engine yields one detection.  For the 10-character
    ["LKTT998877"] with confidence 0.92 the pass publishes that code once on
    the outbound topic; for the 9-character ["LKTT99887"] the filter rejects
    it and nothing is published.  Either way the buffer is released and the
    failure counter is left at 0. *)
Theorem fresh_trigger_end_to_end (now : Z) (target_time : datetime)
  (rest : list datetime) (cf : Z) (reconnects : bool)
  (Hfresh : expired now target_time = false) :
  let g := {| consecutive_failures := cf; message_queue := target_time :: rest |} in
  let g' := {| consecutive_failures := 0; message_queue := rest |} in
  let trigger := MV_CC_SetCommandValue "TriggerSoftware" in
  let fetch := MV_CC_GetImageBuffer CAMERA_TRIGGER_TIMEOUT_MS in
  main_loop_body now
    (capture_succeeds_with (detection "LKTT998877" 0.92%float) reconnects) g
  = (g', [trigger; fetch; ocr_ocr; MV_CC_FreeImageBuffer;
          publish MQTT_TOPIC_PUB (str "LKTT998877")])
  /\ main_loop_body now
       (capture_succeeds_with (detection "LKTT99887" 0.92%float) reconnects) g
     = (g', [trigger; fetch; ocr_ocr; MV_CC_FreeImageBuffer]).
Proof.
  cbv zeta. unfold main_loop_body. cbn [message_queue consecutive_failures].
  rewrite Hfresh. split; reflexivity.
Qed.

Lemma fresh_trigger_end_to_end_witness :
  let target_time := {| oid := 0; micros := 1700000000000000 |} in
  let now := 1700000002500000 in
  let g := {| consecutive_failures := 0; message_queue := [target_time] |} in
  let g' := {| consecutive_failures := 0; message_queue := [] |} in
  let trigger := MV_CC_SetCommandValue "TriggerSoftware" in
  let fetch := MV_CC_GetImageBuffer CAMERA_TRIGGER_TIMEOUT_MS in
  expired now target_time = false /\
  (main_loop_body now
     (capture_succeeds_with (detection "LKTT998877" 0.92%float) false) g
   = (g', [trigger; fetch; ocr_ocr; MV_CC_FreeImageBuffer;
           publish MQTT_TOPIC_PUB (str "LKTT998877")])
   /\ main_loop_body now
        (capture_succeeds_with (detection "LKTT99887" 0.92%float) false) g
      = (g', [trigger; fetch; ocr_ocr; MV_CC_FreeImageBuffer])).
Proof.
  cbv zeta. split; [ reflexivity | ].
  apply (fresh_trigger_end_to_end 1700000002500000
           {| oid := 0; micros := 1700000000000000 |} [] 0 false).
  reflexivity.
Defined.

(** C7 as stated fails: with the detection ["LKTT99887"] 0.92 the pass
    publishes nothing. *)
Lemma fresh_trigger_nine_characters_not_published :
  let target_time := {| oid := 0; micros := 1700000000000000 |} in
  let now := 1700000002500000 in
  let g := {| consecutive_failures := 0; message_queue := [target_time] |} in
  let calls :=
    snd (main_loop_body now
           (capture_succeeds_with (detection "LKTT99887" 0.92%float) false) g) in
  expired now target_time = false /\
  ~ In (publish MQTT_TOPIC_PUB (str "LKTT99887")) calls /\
  count_occ call_eq_dec calls (publish MQTT_TOPIC_PUB (str "LKTT99887")) = 0%nat.
Proof.
  cbv zeta. split; [ reflexivity | ].
  assert (H : ~ In (publish MQTT_TOPIC_PUB (str "LKTT99887"))
                (snd (main_loop_body 1700000002500000
                        (capture_succeeds_with
                           (detection "LKTT99887" 0.92%float) false)
                        {| consecutive_failures := 0;
                           message_queue :=
                             [{| oid := 0; micros := 1700000000000000 |}] |}))).
  { vm_compute. intuition discriminate. }
  split; [ exact H | ].
  apply count_occ_not_In. exact H.
Qed.

(** A pass over a non-empty queue removes its head, and calls nothing when
    the head has expired. *)
Lemma main_loop_body_pop (now : Z) (w : responses) (g : globals)
  (d : datetime) (rest : list datetime) :
  message_queue g = d :: rest ->
  message_queue (fst (main_loop_body now w g)) = rest
  /\ (expired now d = true ->
      main_loop_body now w g
      = ({| consecutive_failures := consecutive_failures g;
            message_queue := rest |}, [])).
Proof.
  intros E. unfold main_loop_body. rewrite E.
  destruct (expired now d); [ split; reflexivity | ].
  split; [ | discriminate ].
  destruct (capture_and_ocr (consecutive_failures g) w) as [[cf r] calls].
  destruct r as [code | ]; [ destruct (truthy code) | ]; reflexivity.
Qed.

Lemma main_loop_body_empty (now : Z) (w : responses) (g : globals) :
  message_queue g = [] -> main_loop_body now w g = (g, []).
Proof. intros E. unfold main_loop_body. rewrite E. reflexivity. Qed.

Lemma In_snoc {A : Type} (x y : A) (l : list A) :
  In x (l ++ [y]) <-> In x l \/ y = x.
Proof. rewrite in_app_iff. simpl. tauto. Qed.

Lemma NoDup_snoc {A : Type} (y : A) (l : list A) :
  NoDup l -> ~ In y l -> NoDup (l ++ [y]).
Proof.
  intros ND Hy. apply NoDup_rev in ND.
  rewrite <- (rev_involutive (l ++ [y])). apply NoDup_rev.
  rewrite rev_app_distr. simpl.
  constructor; [ rewrite <- in_rev; exact Hy | exact ND ].
Qed.

Lemma invariant_initial : invariant initial.
Proof. constructor; simpl; try constructor; intros; contradiction. Qed.

Lemma invariant_message (s : system) (now : Z) (payload : outcome Z) :
  invariant s -> invariant (step s (Message now payload)).
Proof.
  intros [I1 I2 B K A C U]. destruct payload as [t | ].
  2:{ constructor; simpl; assumption. }
  set (d0 := {| oid := next_oid s; micros := t |}).
  assert (Hnew : ~ In d0 (message_queue (state s))).
  { intros Hin. apply I1 in Hin. simpl in Hin. lia. }
  assert (Hq : forall d,
             In d (on_mqtt_message now (Returns d0) (message_queue (state s))) ->
             In d (message_queue (state s))
             \/ (d = d0 /\ expired now d0 = false)).
  { intros d. unfold on_mqtt_message. destruct (expired now d0).
    - auto.
    - rewrite In_snoc. intros [H | H]; auto. }
  constructor; simpl; fold d0.
  - intros d Hd. destruct (Hq d Hd) as [H | [-> _]];
      [ apply I1 in H; lia | simpl; lia ].
  - unfold on_mqtt_message. destruct (expired now d0);
      [ exact I2 | apply NoDup_snoc; assumption ].
  - intros d n. rewrite In_snoc. intros [H | H].
    + apply B in H. lia.
    + injection H as <- _. simpl. lia.
  - intros d n c. rewrite In_snoc. intros [H | H]; [ | discriminate ].
    apply K in H. lia.
  - intros d n Hd. rewrite In_snoc. intros [H | H].
    + destruct (Hq d Hd) as [Hin | [-> _]]; [ apply (A d n Hin H) | ].
      apply B in H. simpl in H. lia.
    + injection H as <- <-.
      destruct (Hq d0 Hd) as [Hin | [_ Hf]]; [ now elim Hnew | exact Hf ].
  - intros d n c. rewrite In_snoc. intros [H | H]; [ | discriminate ].
    destruct (C d n c H) as (C1 & C2 & C3).
    assert (Hd : d <> d0).
    { intros ->. apply K in H. simpl in H. lia. }
    split; [ | split ].
    + intros Hin. destruct (Hq d Hin) as [Hin' | [E _]];
        [ exact (C1 Hin') | exact (Hd E) ].
    + intros n'. rewrite In_snoc. intros [H' | H'].
      * apply (C2 n' H').
      * injection H' as E _. now elim Hd.
    + exact C3.
  - intros d n c n' c'. rewrite !In_snoc.
    intros [H | H] [H' | H']; try discriminate. apply (U d n c n' c' H H').
Qed.

Lemma invariant_iteration (s : system) (now : Z) (w : responses) :
  invariant s -> invariant (step s (Iteration now w)).
Proof.
  intros [I1 I2 B K A C U]. unfold step.
  destruct (message_queue (state s)) as [ | d0 rest] eqn:Eq.
  - rewrite (main_loop_body_empty now w _ Eq).
    constructor; simpl; rewrite ?Eq; assumption.
  - destruct (main_loop_body_pop now w _ d0 rest Eq) as [Hpop Hexp].
    destruct (main_loop_body now w (state s)) as [g calls].
    simpl in Hpop. inversion I2 as [ | ? ? Hd0 ND]; subst.
    assert (Hcalls : expired now d0 = true -> calls = []).
    { intros H. specialize (Hexp H). injection Hexp as _ ->. reflexivity. }
    constructor; simpl.
    + intros d Hd. apply I1. right; exact Hd.
    + exact ND.
    + intros d n. rewrite In_snoc. intros [H | H]; [ | discriminate ].
      apply (B d n H).
    + intros d n c. rewrite In_snoc. intros [H | H].
      * apply (K d n c H).
      * injection H as <- _ _. apply I1. left; reflexivity.
    + intros d n Hd. rewrite In_snoc. intros [H | H]; [ | discriminate ].
      apply (A d n); [ right; exact Hd | exact H ].
    + intros d n c. rewrite In_snoc. intros [H | H].
      * destruct (C d n c H) as (C1 & C2 & C3). split; [ | split ].
        -- intros Hin. apply C1. right; exact Hin.
        -- intros n'. rewrite In_snoc. intros [H' | H']; [ | discriminate ].
           apply (C2 n' H').
        -- exact C3.
      * injection H as <- <- <-. split; [ exact Hd0 | split ].
        -- intros n'. rewrite In_snoc. intros [H' | H']; [ | discriminate ].
           apply (A d0 n'); [ left; reflexivity | exact H' ].
        -- exact Hcalls.
    + intros d n c n' c'. rewrite !In_snoc. intros [H | H] [H' | H'].
      * apply (U d n c n' c' H H').
      * injection H' as <- _ _.
        destruct (C d0 n c H) as (C1 & _). elim C1. left; reflexivity.
      * injection H as <- _ _.
        destruct (C d0 n' c' H') as (C1 & _). elim C1. left; reflexivity.
      * injection H as _ _ <-. injection H' as _ _ <-. reflexivity.
Qed.

Lemma invariant_run (inputs : list input) : invariant (run inputs).
Proof.
  unfold run. generalize invariant_initial. generalize initial.
  induction inputs as [ | i inputs IH]; intros s Hs; simpl; [ exact Hs | ].
  apply IH. destruct i as [now payload | now w];
    [ apply invariant_message | apply invariant_iteration ]; exact Hs.
Qed.

(** C5: a trigger whose age [now - issuedAt] exceeds [TTL_SECONDS] when
    [on_mqtt_message] receives it is not put in the queue, and one whose age
    exceeds it when the main loop takes it from the queue is dropped by a
    pass that makes no call.  In every run of the two threads, a trigger
    that had expired when received is never taken from the queue, and for a
    trigger that had expired when taken from the queue no capture attempt is
    ever made. *)
Theorem expired_trigger_never_captured (inputs : list input) (d : datetime)
  (now : Z) (Hage : now - micros d > TTL_SECONDS * 1000000) :
  (forall target_queue, on_mqtt_message now (Returns d) target_queue = target_queue)
  /\ (forall w cf rest,
        main_loop_body now w
          {| consecutive_failures := cf; message_queue := d :: rest |}
        = ({| consecutive_failures := cf; message_queue := rest |}, []))
  /\ (In (Received d now) (history (run inputs)) ->
      forall now' calls, ~ In (Dequeued d now' calls) (history (run inputs)))
  /\ (forall calls,
        In (Dequeued d now calls) (history (run inputs)) ->
        calls = [] /\ ~ capture_attempt d (history (run inputs))).
Proof.
  assert (Hexp : expired now d = true).
  { unfold expired. apply Z.ltb_lt. lia. }
  destruct (invariant_run inputs) as [_ _ _ _ _ C U].
  split; [ | split; [ | split ] ].
  - intros q. unfold on_mqtt_message. rewrite Hexp. reflexivity.
  - intros w cf rest. unfold main_loop_body. simpl. rewrite Hexp. reflexivity.
  - intros Hrec now' calls Hdeq.
    destruct (C d now' calls Hdeq) as (_ & Hfresh & _).
    rewrite (Hfresh now Hrec) in Hexp. discriminate.
  - intros calls Hdeq.
    destruct (C d now calls Hdeq) as (_ & _ & Hnone).
    specialize (Hnone Hexp). split; [ exact Hnone | ].
    intros (now' & calls' & Hdeq' & Hcalls').
    apply Hcalls'. rewrite <- (U d now calls now' calls' Hdeq Hdeq').
    exact Hnone.
Qed.

Lemma expired_trigger_never_captured_witness :
  let busy :=
    {| on_trigger := Returns tt; on_fetch := Returns MV_OK;
       on_reconnect := false; on_image := Returns tt; on_ocr := Returns None |} in
  let inputs :=
    [Message 1700000006000001 (Returns 1700000000000000);
     Message 1700000007000000 (Returns 1700000006000000);
     Iteration 1700000012000000 busy;
     Iteration 1700000013000000 busy] in
  let late := {| oid := 0; micros := 1700000000000000 |} in
  let waited := {| oid := 1; micros := 1700000006000000 |} in
  (1700000006000001 - micros late > TTL_SECONDS * 1000000
   /\ In (Received late 1700000006000001) (history (run inputs))
   /\ forall now' calls, ~ In (Dequeued late now' calls) (history (run inputs)))
  /\ (1700000012000000 - micros waited > TTL_SECONDS * 1000000
      /\ In (Dequeued waited 1700000012000000 []) (history (run inputs))
      /\ ~ capture_attempt waited (history (run inputs))).
Proof.
  cbv zeta. split.
  - split; [ reflexivity | ]. split; [ vm_compute; auto | ].
    refine (proj1 (proj2 (proj2
      (expired_trigger_never_captured _
         {| oid := 0; micros := 1700000000000000 |} 1700000006000001 _))) _).
    + reflexivity.
    + vm_compute; auto.
  - split; [ reflexivity | ]. split; [ vm_compute; auto | ].
    refine (proj2 (proj2 (proj2 (proj2
      (expired_trigger_never_captured _
         {| oid := 1; micros := 1700000006000000 |} 1700000012000000 _))) [] _)).
    + reflexivity.
    + vm_compute; auto.
Defined.

(* ================================================================== *)
(** * Further properties of the code *)

(** ** fix_code *)

Lemma cleaned_code_app (s1 s2 : pystr) :
  cleaned_code (s1 ++ s2) = cleaned_code s1 ++ cleaned_code s2.
Proof.
  unfold cleaned_code, upper, re_sub_non_alnum.
  rewrite filter_app, map_app. reflexivity.
Qed.

Lemma cleaned_code_length (s : pystr) :
  (length (cleaned_code s) <= length s)%nat.
Proof.
  unfold cleaned_code, upper, re_sub_non_alnum.
  rewrite length_map. apply filter_length_le.
Qed.

(** X1: whatever the three constants are, what [fix_code] returns is made of
    upper-case letters and digits only and is never longer than the string
    it was given. *)
Theorem fix_code_output_alphabet (enable : bool) (prefix : pystr)
  (length_ : Z) (code : pyval) (s : pystr) :
  upper_alnum (fix_code_cfg enable prefix length_ code)
  /\ (length (fix_code_cfg enable prefix length_ (PyStr s)) <= length s)%nat.
Proof.
  split.
  - destruct code as [ | | | | | s' | ]; try constructor.
    destruct (fix_code_cfg_cases enable prefix length_ s') as [-> | ->];
      [ constructor | apply cleaned_code_upper_alnum ].
  - destruct (fix_code_cfg_cases enable prefix length_ s) as [-> | ->];
      [ apply Nat.le_0_l | apply cleaned_code_length ].
Qed.

(** X2: [fix_code] does not see separators or the case of ASCII letters: a
    character outside [a-zA-Z0-9] can be removed anywhere in the string, and
    a lower-case letter replaced by its upper-case one, without changing the
    result. *)
Theorem fix_code_ignores_separators_and_case (enable : bool) (prefix : pystr)
  (length_ : Z) (s1 s2 : pystr) (c : N) :
  (Chars.is_alnum c = false ->
   fix_code_cfg enable prefix length_ (PyStr (s1 ++ c :: s2))
   = fix_code_cfg enable prefix length_ (PyStr (s1 ++ s2)))
  /\ (Chars.is_lower c = true ->
      fix_code_cfg enable prefix length_ (PyStr (s1 ++ c :: s2))
      = fix_code_cfg enable prefix length_ (PyStr (s1 ++ (c - 32)%N :: s2))).
Proof.
  assert (Hsep : Chars.is_alnum c = false ->
                 cleaned_code (s1 ++ c :: s2) = cleaned_code (s1 ++ s2)).
  { intros Hc. rewrite !cleaned_code_app. f_equal.
    unfold cleaned_code, upper, re_sub_non_alnum. simpl. rewrite Hc.
    reflexivity. }
  assert (Hcase : Chars.is_lower c = true ->
                  cleaned_code (s1 ++ c :: s2)
                  = cleaned_code (s1 ++ (c - 32)%N :: s2)).
  { intros Hc. rewrite !cleaned_code_app. f_equal.
    assert (Hup : Chars.is_upper (c - 32)%N = true).
    { unfold Chars.is_lower in Hc. unfold Chars.is_upper.
      apply andb_true_iff in Hc as [H1 H2]. apply N.leb_le in H1, H2.
      apply andb_true_iff. split; apply N.leb_le; lia. }
    assert (Hlow : Chars.is_lower (c - 32)%N = false).
    { unfold Chars.is_lower in *.
      apply andb_true_iff in Hc as [H1 H2]. apply N.leb_le in H1, H2.
      apply andb_false_iff. left. apply N.leb_gt. lia. }
    unfold cleaned_code, upper, re_sub_non_alnum. simpl.
    unfold Chars.is_alnum. rewrite Hc, Hup, Hlow. simpl.
    unfold Chars.upper_char. rewrite Hc, Hlow. reflexivity. }
  split; intros Hc; unfold fix_code_cfg; cbv zeta;
    [ rewrite (Hsep Hc) | rewrite (Hcase Hc) ]; reflexivity.
Qed.

Lemma fix_code_ignores_separators_and_case_witness :
  (Chars.is_alnum 45 = false /\
   fix_code (PyStr (str "LKTT" ++ 45%N :: str "123456"))
   = fix_code (PyStr (str "LKTT" ++ str "123456")))
  /\ (Chars.is_lower 107 = true /\
      fix_code (PyStr (str "L" ++ 107%N :: str "TT123456"))
      = fix_code (PyStr (str "L" ++ (107 - 32)%N :: str "TT123456"))).
Proof.
  split; (split; [ reflexivity | ]).
  - apply (proj1 (fix_code_ignores_separators_and_case
                    ENABLE_CODE_FILTER CODE_PREFIX CODE_LENGTH
                    (str "LKTT") (str "123456") 45%N)).
    reflexivity.
  - apply (proj2 (fix_code_ignores_separators_and_case
                    ENABLE_CODE_FILTER CODE_PREFIX CODE_LENGTH
                    (str "L") (str "TT123456") 107%N)).
    reflexivity.
Defined.

(** ** The recognition loop *)

Section CollectFacts.
Variable enable : bool.
Variable prefix : pystr.
Variable length_ : Z.

Lemma visit_word_contribution (results : list pystr) (w : word_info) :
  visit_word_cfg enable prefix length_ results w
  = results ++ contribution enable prefix length_ w.
Proof.
  unfold visit_word_cfg, contribution. cbv zeta.
  destruct (PrimFloat.ltb _ _); [ | rewrite app_nil_r; reflexivity ].
  destruct (fix_code_cfg enable prefix length_ (text w)); simpl;
    [ rewrite app_nil_r | ]; reflexivity.
Qed.

Lemma visit_words_contribution (words : list word_info) (results : list pystr) :
  fold_left (visit_word_cfg enable prefix length_) words results
  = results ++ flat_map (contribution enable prefix length_) words.
Proof.
  revert results. induction words as [ | w words IH]; intros results; simpl.
  - rewrite app_nil_r. reflexivity.
  - rewrite IH, visit_word_contribution, <- app_assoc. reflexivity.
Qed.

Lemma visit_lines_contribution (lines : list (option (list word_info)))
  (results : list pystr) :
  fold_left (visit_line_cfg enable prefix length_) lines results
  = results
    ++ flat_map (contribution enable prefix length_) (words_of (Some lines)).
Proof.
  revert results. induction lines as [ | line lines IH]; intros results.
  - simpl. rewrite app_nil_r. reflexivity.
  - simpl fold_left. rewrite IH. simpl words_of in *. simpl flat_map at 2.
    rewrite flat_map_app, app_assoc. f_equal.
    destruct line as [words | ]; simpl.
    + apply visit_words_contribution.
    + rewrite app_nil_r. reflexivity.
Qed.

End CollectFacts.

(** X3: the two nested loops of the recognition leave in [results], in
    detection order, the cleaned text of every word whose confidence is
    strictly above the threshold and whose text [fix_code] accepts, and
    nothing else; a [None] answer and [None] lines contribute nothing. *)
Theorem collect_results_in_detection_order (enable : bool) (prefix : pystr)
  (length_ : Z) (ocr_results : ocr_output) :
  collect_results_cfg enable prefix length_ ocr_results
  = flat_map (contribution enable prefix length_) (words_of ocr_results).
Proof.
  destruct ocr_results as [[ | line lines] | ]; try reflexivity.
  unfold collect_results_cfg.
  rewrite visit_lines_contribution. reflexivity.
Qed.

(** X4: when no word has a confidence strictly above the threshold (a
    confidence equal to it, or a NaN, does not count), the recognition
    returns [None], whatever the texts are. *)
Theorem no_confident_detection_no_code (enable : bool) (prefix : pystr)
  (length_ : Z) (ocr_results : ocr_output)
  (H : Forall (fun w => PrimFloat.ltb OCR_CONFIDENCE_THRESHOLD (confidence w) = false)
         (words_of ocr_results)) :
  recognise_cfg enable prefix length_ ocr_results = Returns None.
Proof.
  unfold recognise_cfg.
  rewrite collect_results_in_detection_order.
  induction H as [ | w words Hw _ IH]; [ reflexivity | ].
  simpl. unfold contribution at 1. rewrite Hw. exact IH.
Qed.

Lemma no_confident_detection_no_code_witness :
  let ocr_results :=
    Some [None; Some [detection "LKTT123456" 0.8%float;
                      detection "LKTT123456" PrimFloat.nan;
                      detection "LKTT123456" 0.79%float]] in
  Forall (fun w => PrimFloat.ltb OCR_CONFIDENCE_THRESHOLD (confidence w) = false)
    (words_of ocr_results)
  /\ recognise ocr_results = Returns None.
Proof.
  cbv zeta.
  assert (H : Forall
                (fun w => PrimFloat.ltb OCR_CONFIDENCE_THRESHOLD (confidence w) = false)
                (words_of
                   (Some [None; Some [detection "LKTT123456" 0.8%float;
                                      detection "LKTT123456" PrimFloat.nan;
                                      detection "LKTT123456" 0.79%float]]))).
  { repeat constructor. }
  split; [ exact H | ].
  apply (no_confident_detection_no_code ENABLE_CODE_FILTER CODE_PREFIX CODE_LENGTH
           _ H).
Defined.

(** ** The vote *)

(** X5: a value that occurs strictly more often than every other one in
    [results] wins the vote, in whatever order the detections come. *)
Theorem vote_strict_winner (results results' : list pystr) (r : pystr)
  (Hperm : Permutation results results')
  (Hwin : forall x, x <> r -> occurrences x results < occurrences r results) :
  vote results' = Returns (Some r).
Proof.
  assert (Hocc : forall x, occurrences x results' = occurrences x results).
  { intros x. unfold occurrences. f_equal. symmetry.
    apply (proj1 (Permutation_count_occ pystr_eq_dec results results') Hperm). }
  assert (Hr : In r results').
  { apply occurrences_pos. rewrite Hocc.
    destruct (pystr_eq_dec (0%N :: r) r) as [E | NE].
    - exfalso. apply (f_equal (@length N)) in E. simpl in E. lia.
    - specialize (Hwin _ NE). unfold occurrences in *. lia. }
  destruct (vote_spec results') as (r' & Hvote & _ & Hmax & _).
  { intros E. rewrite E in Hr. exact Hr. }
  rewrite Hvote. destruct (pystr_eq_dec r' r) as [-> | NE]; [ reflexivity | ].
  specialize (Hwin r' NE). specialize (Hmax r). rewrite !Hocc in Hmax. lia.
Qed.

Lemma vote_strict_winner_witness :
  Permutation [str "A"; str "B"; str "B"] [str "B"; str "A"; str "B"]
  /\ vote [str "B"; str "A"; str "B"] = Returns (Some (str "B")).
Proof.
  assert (P : Permutation [str "A"; str "B"; str "B"] [str "B"; str "A"; str "B"]).
  { apply perm_swap. }
  split; [ exact P | ].
  apply (vote_strict_winner _ _ (str "B") P).
  intros x Hx. unfold occurrences. cbn [count_occ].
  destruct (pystr_eq_dec (str "B") x) as [E | _]; [ now elim Hx | ].
  destruct (pystr_eq_dec (str "B") (str "B")) as [_ | NE]; [ | now elim NE ].
  destruct (pystr_eq_dec (str "A") x) as [_ | _];
    destruct (pystr_eq_dec (str "A") (str "B")) as [E | _];
    try discriminate; lia.
Defined.

(** X6: the recognition never raises: [most_common(1)[0]] is evaluated only
    for a non-empty [results], for which the counter has an item, so the
    [IndexError] cannot occur. *)
Theorem recognise_never_raises (enable : bool) (prefix : pystr) (length_ : Z)
  (ocr_results : ocr_output) :
  recognise_cfg enable prefix length_ ocr_results <> Raises.
Proof.
  destruct (recognise_cfg_returns enable prefix length_ ocr_results) as [r ->].
  discriminate.
Qed.

(** ** capture_and_ocr *)

(** The calls of [capture_and_ocr], path by path. *)
Lemma calls_of_cases (cf : Z) (w : responses) :
  let trigger := MV_CC_SetCommandValue "TriggerSoftware" in
  let fetch := MV_CC_GetImageBuffer CAMERA_TRIGGER_TIMEOUT_MS in
  calls_of cf w
  = match on_trigger w with
    | Raises => [trigger]
    | Returns _ =>
        match on_fetch w with
        | Raises => [trigger; fetch]
        | Returns ret =>
            if ret =? MV_OK then
              [trigger; fetch]
              ++ match on_image w with Returns _ => [ocr_ocr] | Raises => [] end
              ++ [MV_CC_FreeImageBuffer]
            else
              [trigger; fetch]
              ++ (if CAMERA_MAX_FAILURES <=? cf + 1 then [reconnect_camera] else [])
        end
    end.
Proof.
  cbv zeta. unfold calls_of, capture_and_ocr, try_block.
  destruct (on_trigger w) as [u | ]; [ | reflexivity ].
  destruct (on_fetch w) as [ret | ]; [ | reflexivity ].
  destruct (ret =? MV_OK) eqn:Hret; simpl negb; cbv zeta iota.
  - destruct (on_image w) as [u' | ]; [ destruct (on_ocr w) | ];
      cbv iota; rewrite Hret; reflexivity.
  - destruct (CAMERA_MAX_FAILURES <=? cf + 1); [ destruct (on_reconnect w) | ];
      cbv iota; rewrite Hret; reflexivity.
Qed.

(** X7: [MV_CC_FreeImageBuffer] is called exactly when the fetch returned
    [MV_OK], and then once: a buffer that was not acquired (a failed fetch,
    or an exception before or in the fetch) is never released. *)
Theorem buffer_released_iff_acquired (cf : Z) (w : responses) :
  (In MV_CC_FreeImageBuffer (calls_of cf w) <-> fetch_succeeds w = true)
  /\ count_occ call_eq_dec (calls_of cf w) MV_CC_FreeImageBuffer
     = (if fetch_succeeds w then 1 else 0)%nat.
Proof.
  rewrite (calls_of_cases cf w). cbv zeta. unfold fetch_succeeds.
  destruct (on_trigger w) as [u | ].
  2:{ split; [ | reflexivity ].
      split; [ intros [H | []]; discriminate | discriminate ]. }
  destruct (on_fetch w) as [ret | ].
  2:{ split; [ | reflexivity ].
      split; [ intros [H | [H | []]]; discriminate | discriminate ]. }
  destruct (ret =? MV_OK).
  - destruct (on_image w); (split; [ | reflexivity ]);
      (split; [ reflexivity | intros _; simpl; auto ]).
  - destruct (CAMERA_MAX_FAILURES <=? cf + 1); (split; [ | reflexivity ]);
      (split; [ simpl; intuition discriminate | discriminate ]).
Qed.

(** X8: [reconnect_camera] is called exactly when the fetch returned an
    error code and this failure brings the counter to [CAMERA_MAX_FAILURES]
    or beyond; a success, an exception, or an earlier failure of a run never
    starts a reconnection. *)
Theorem reconnect_iff_threshold_reached (cf : Z) (w : responses) :
  In reconnect_camera (calls_of cf w)
  <-> fetch_fails w = true /\ CAMERA_MAX_FAILURES <= cf + 1.
Proof.
  rewrite (calls_of_cases cf w). cbv zeta. unfold fetch_fails.
  destruct (on_trigger w) as [u | ].
  2:{ split; [ intros [H | []]; discriminate | intros [H _]; discriminate ]. }
  destruct (on_fetch w) as [ret | ].
  2:{ split; [ intros [H | [H | []]]; discriminate | intros [H _]; discriminate ]. }
  destruct (ret =? MV_OK); simpl negb.
  - split; [ | intros [H _]; discriminate ].
    destruct (on_image w); simpl; intuition discriminate.
  - destruct (Z.leb_spec CAMERA_MAX_FAILURES (cf + 1)) as [Hle | Hgt].
    + split; [ auto | intros _; simpl; auto ].
    + split; [ simpl; intuition discriminate | intros [_ H]; lia ].
Qed.

(** X9: once the counter has reached the threshold, and as long as the
    reconnection fails, every further failed capture calls
    [reconnect_camera] again, once each, and adds one to the counter: there
    is no back-off and no upper bound on the attempts. *)
Theorem reconnect_retried_on_every_failure (ws : list responses) (cf : Z)
  (Hcf : CAMERA_MAX_FAILURES <= cf + 1)
  (Hws : Forall (fun w => fetch_fails w = true /\ on_reconnect w = false) ws) :
  captures cf ws
  = (cf + Z.of_nat (length ws),
     flat_map (fun _ => [MV_CC_SetCommandValue "TriggerSoftware";
                         MV_CC_GetImageBuffer CAMERA_TRIGGER_TIMEOUT_MS;
                         reconnect_camera]) ws).
Proof.
  revert cf Hcf. induction Hws as [ | w ws [Hw Hre] _ IH]; intros cf Hcf.
  - simpl. rewrite Z.add_0_r. reflexivity.
  - cbn [captures]. unfold counter_after, calls_of.
    rewrite (capture_on_failure cf w Hw), Hre.
    destruct (Z.leb_spec CAMERA_MAX_FAILURES (cf + 1)) as [_ | Hgt]; [ | lia ].
    cbn [fst snd]. rewrite (IH (cf + 1)) by lia.
    cbn [flat_map length]. f_equal. lia.
Qed.

Lemma reconnect_retried_on_every_failure_witness :
  let unplugged :=
    {| on_trigger := Returns tt; on_fetch := Returns 2147483655;
       on_reconnect := false; on_image := Returns tt; on_ocr := Raises |} in
  CAMERA_MAX_FAILURES <= 2 + 1
  /\ captures 2 [unplugged; unplugged]
     = (2 + Z.of_nat 2,
        [MV_CC_SetCommandValue "TriggerSoftware";
         MV_CC_GetImageBuffer CAMERA_TRIGGER_TIMEOUT_MS; reconnect_camera;
         MV_CC_SetCommandValue "TriggerSoftware";
         MV_CC_GetImageBuffer CAMERA_TRIGGER_TIMEOUT_MS; reconnect_camera]).
Proof.
  cbv zeta. split; [ discriminate | ].
  apply (reconnect_retried_on_every_failure
           [ {| on_trigger := Returns tt; on_fetch := Returns 2147483655;
                on_reconnect := false; on_image := Returns tt; on_ocr := Raises |};
             {| on_trigger := Returns tt; on_fetch := Returns 2147483655;
                on_reconnect := false; on_image := Returns tt; on_ocr := Raises |} ]
           2).
  - discriminate.
  - repeat constructor.
Defined.

(** A code the recognition returns is an accepted one. *)
Lemma recognise_code_accepted (enable : bool) (prefix : pystr) (length_ : Z)
  (ocr_results : ocr_output) (code : pystr) :
  recognise_cfg enable prefix length_ ocr_results = Returns (Some code) ->
  accepted enable prefix length_ code.
Proof.
  unfold recognise_cfg. intros H.
  pose proof (collect_results_accepted enable prefix length_ ocr_results) as Hacc.
  destruct (collect_results_cfg enable prefix length_ ocr_results)
    as [ | x xs] eqn:E; [ discriminate | ].
  destruct (vote_spec (x :: xs)) as (r & Hr & Hin & _); [ discriminate | ].
  rewrite Hr in H. injection H as <-.
  rewrite Forall_forall in Hacc. apply (Hacc r Hin).
Qed.

(** Under the script's constants an accepted code has the prefix and the
    length of the business rule. *)
Lemma accepted_business_code (code : pystr) :
  accepted ENABLE_CODE_FILTER CODE_PREFIX CODE_LENGTH code ->
  startswith code CODE_PREFIX = true /\ len code = CODE_LENGTH
  /\ upper_alnum code.
Proof.
  intros [Hne [v ->]]. revert Hne.
  destruct v as [ | | | | | s | ]; try (intros H; now elim H).
  unfold fix_code_cfg, ENABLE_CODE_FILTER. cbv zeta.
  destruct (startswith (cleaned_code s) CODE_PREFIX) eqn:Hp;
    [ | intros H; now elim H ].
  destruct (len (cleaned_code s) =? CODE_LENGTH) eqn:Hl;
    [ | intros H; now elim H ].
  intros _. simpl. repeat split.
  - exact Hp.
  - apply Z.eqb_eq, Hl.
  - apply cleaned_code_upper_alnum.
Qed.

(** [capture_and_ocr] returns a code only on the path where the fetch
    succeeded and the recognition returned that code. *)
Lemma capture_result_recognised (cf : Z) (w : responses) (code : pystr) :
  result_of cf w = Some code ->
  fetch_succeeds w = true
  /\ exists ocr_results,
       on_ocr w = Returns ocr_results
       /\ recognise ocr_results = Returns (Some code).
Proof.
  unfold result_of, capture_and_ocr, try_block, fetch_succeeds.
  destruct (on_trigger w) as [u | ]; [ | discriminate ].
  destruct (on_fetch w) as [ret | ]; [ | discriminate ].
  destruct (ret =? MV_OK) eqn:Hret; simpl negb; cbv zeta iota.
  - intros H. split; [ reflexivity | ].
    destruct (on_image w) as [u' | ]; [ | discriminate ].
    destruct (on_ocr w) as [ocr_results | ]; [ | discriminate ].
    simpl in H. exists ocr_results. split; [ reflexivity | ].
    destruct (recognise ocr_results) as [[code' | ] | ]; try discriminate.
    injection H as ->. reflexivity.
  - destruct (CAMERA_MAX_FAILURES <=? cf + 1); [ destruct (on_reconnect w) | ];
      discriminate.
Qed.

(** X10: [capture_and_ocr] returns a code only when the fetch returned
    [MV_OK], and the code it returns is a business code: it starts with
    ["LKTT"], is 10 characters long and made of upper-case letters and
    digits.  On a failed fetch and on every exception it returns [None]. *)
Theorem capture_returns_business_code (cf : Z) (w : responses) (code : pystr)
  (H : result_of cf w = Some code) :
  fetch_succeeds w = true
  /\ startswith code CODE_PREFIX = true /\ len code = CODE_LENGTH
  /\ upper_alnum code.
Proof.
  destruct (capture_result_recognised cf w code H)
    as [Hfetch (ocr_results & _ & Hrec)].
  split; [ exact Hfetch | ].
  apply accepted_business_code.
  apply (recognise_code_accepted _ _ _ ocr_results). exact Hrec.
Qed.

Lemma capture_returns_business_code_witness :
  let w := capture_succeeds_with (detection "lktt 998877" 0.92%float) false in
  result_of 5 w = Some (str "LKTT998877")
  /\ fetch_succeeds w = true
  /\ startswith (str "LKTT998877") CODE_PREFIX = true
  /\ len (str "LKTT998877") = CODE_LENGTH
  /\ upper_alnum (str "LKTT998877").
Proof.
  cbv zeta. split; [ reflexivity | ].
  apply (capture_returns_business_code 5
           (capture_succeeds_with (detection "lktt 998877" 0.92%float) false)).
  reflexivity.
Defined.

(** ** The main loop *)

Lemma capture_never_publishes (cf : Z) (w : responses) (topic : string)
  (payload : pystr) :
  ~ In (publish topic payload) (calls_of cf w).
Proof.
  rewrite (calls_of_cases cf w). cbv zeta.
  destruct (on_trigger w) as [u | ]; [ | simpl; intuition discriminate ].
  destruct (on_fetch w) as [ret | ]; [ | simpl; intuition discriminate ].
  destruct (ret =? MV_OK).
  - destruct (on_image w); simpl; intuition discriminate.
  - destruct (CAMERA_MAX_FAILURES <=? cf + 1); simpl; intuition discriminate.
Qed.

(** The calls of a pass that found a fresh trigger: those of
    [capture_and_ocr], then the publication of a non-empty result. *)
Lemma main_loop_body_fresh (now : Z) (w : responses) (g : globals)
  (d : datetime) (rest : list datetime) :
  message_queue g = d :: rest -> expired now d = false ->
  snd (main_loop_body now w g)
  = calls_of (consecutive_failures g) w
    ++ match result_of (consecutive_failures g) w with
       | Some code => if truthy code then [publish MQTT_TOPIC_PUB code] else []
       | None => []
       end.
Proof.
  intros Eq Hfresh. unfold main_loop_body, calls_of, result_of.
  rewrite Eq, Hfresh.
  destruct (capture_and_ocr (consecutive_failures g) w) as [[cf r] calls].
  simpl. destruct r as [code | ]; [ destruct (truthy code) | ]; simpl;
    rewrite ?app_nil_r; reflexivity.
Qed.

(** X11: whatever a pass of the main loop publishes, it publishes on
    [MQTT_TOPIC_PUB], as the last call of the pass and only once, and the
    payload is the business code [capture_and_ocr] returned: it starts with
    ["LKTT"], is 10 characters long and made of upper-case letters and
    digits. *)
Theorem published_payload_is_business_code (now : Z) (w : responses)
  (g : globals) (topic : string) (payload : pystr)
  (H : In (publish topic payload) (snd (main_loop_body now w g))) :
  topic = MQTT_TOPIC_PUB
  /\ snd (main_loop_body now w g)
     = calls_of (consecutive_failures g) w ++ [publish topic payload]
  /\ (forall t p, ~ In (publish t p) (calls_of (consecutive_failures g) w))
  /\ result_of (consecutive_failures g) w = Some payload
  /\ startswith payload CODE_PREFIX = true /\ len payload = CODE_LENGTH
  /\ upper_alnum payload.
Proof.
  destruct (message_queue g) as [ | d rest] eqn:Eq.
  { rewrite (main_loop_body_empty now w g Eq) in H. destruct H. }
  destruct (expired now d) eqn:Hexp.
  { destruct (main_loop_body_pop now w g d rest Eq) as [_ Hnone].
    rewrite (Hnone Hexp) in H. destruct H. }
  rewrite (main_loop_body_fresh now w g d rest Eq Hexp) in *.
  apply in_app_or in H. destruct H as [H | H];
    [ now elim (capture_never_publishes _ _ _ _ H) | ].
  destruct (result_of (consecutive_failures g) w) as [code | ] eqn:Hres;
    [ | destruct H ].
  destruct (truthy code); [ | destruct H ].
  destruct H as [H | []]. injection H as <- <-.
  split; [ reflexivity | ]. split; [ reflexivity | ].
  split; [ intros t p; apply capture_never_publishes | ].
  split; [ reflexivity | ].
  destruct (capture_result_recognised _ _ _ Hres) as [_ (ocr_results & _ & Hrec)].
  apply accepted_business_code.
  apply (recognise_code_accepted _ _ _ ocr_results). exact Hrec.
Qed.

Lemma published_payload_is_business_code_witness :
  let w := capture_succeeds_with (detection "LKTT998877" 0.92%float) false in
  let g := {| consecutive_failures := 1;
              message_queue := [{| oid := 0; micros := 1700000000000000 |}] |} in
  let now := 1700000001000000 in
  In (publish MQTT_TOPIC_PUB (str "LKTT998877")) (snd (main_loop_body now w g))
  /\ MQTT_TOPIC_PUB = MQTT_TOPIC_PUB
  /\ snd (main_loop_body now w g)
     = calls_of (consecutive_failures g) w
       ++ [publish MQTT_TOPIC_PUB (str "LKTT998877")]
  /\ (forall t p, ~ In (publish t p) (calls_of (consecutive_failures g) w))
  /\ result_of (consecutive_failures g) w = Some (str "LKTT998877")
  /\ startswith (str "LKTT998877") CODE_PREFIX = true
  /\ len (str "LKTT998877") = CODE_LENGTH
  /\ upper_alnum (str "LKTT998877").
Proof.
  cbv zeta.
  assert (H : In (publish MQTT_TOPIC_PUB (str "LKTT998877"))
                (snd (main_loop_body 1700000001000000
                        (capture_succeeds_with
                           (detection "LKTT998877" 0.92%float) false)
                        {| consecutive_failures := 1;
                           message_queue :=
                             [{| oid := 0; micros := 1700000000000000 |}] |}))).
  { vm_compute. auto 10. }
  split; [ exact H | ].
  apply (published_payload_is_business_code _ _ _ _ _ H).
Defined.

(** X12: a pass of the main loop calls the camera exactly when the queue is
    not empty and its head has not expired; in every case a non-empty queue
    loses its head and nothing else, and an empty queue leaves the globals
    as they were. *)
Theorem pass_attempts_capture_iff_fresh (now : Z) (w : responses) (g : globals) :
  (snd (main_loop_body now w g) <> []
   <-> exists d rest, message_queue g = d :: rest /\ expired now d = false)
  /\ message_queue (fst (main_loop_body now w g)) = tl (message_queue g)
  /\ (message_queue g = [] -> fst (main_loop_body now w g) = g).
Proof.
  destruct (message_queue g) as [ | d rest] eqn:Eq.
  - rewrite (main_loop_body_empty now w g Eq). simpl. rewrite Eq.
    repeat split; try reflexivity.
    + intros H; now elim H.
    + intros (d & rest & E & _). discriminate.
  - destruct (main_loop_body_pop now w g d rest Eq) as [Hpop Hnone].
    split; [ | split; [ exact Hpop | discriminate ] ].
    destruct (expired now d) eqn:Hexp.
    + rewrite (Hnone eq_refl). simpl. split; [ intros H; now elim H | ].
      intros (d' & rest' & E & Hfresh). injection E as <- <-.
      rewrite Hexp in Hfresh. discriminate.
    + rewrite (main_loop_body_fresh now w g d rest Eq Hexp).
      destruct (capture_and_ocr_triggers (consecutive_failures g) w)
        as [calls ->].
      split; [ intros _; exists d, rest; auto | intros _; discriminate ].
Qed.

(** ** Runs of the two threads *)

Lemma received_fresh_snoc (h : list record_) (r : record_) :
  received_fresh (h ++ [r]) = received_fresh h ++ received_fresh [r].
Proof. unfold received_fresh. apply flat_map_app. Qed.

Lemma dequeued_snoc (h : list record_) (r : record_) :
  dequeued (h ++ [r]) = dequeued h ++ dequeued [r].
Proof. unfold dequeued. apply flat_map_app. Qed.

Lemma fifo_step (s : system) (i : input) :
  received_fresh (history s) = dequeued (history s) ++ message_queue (state s) ->
  received_fresh (history (step s i))
  = dequeued (history (step s i)) ++ message_queue (state (step s i)).
Proof.
  intros IH. destruct i as [now [t | ] | now w].
  - simpl. rewrite received_fresh_snoc, dequeued_snoc, IH. simpl.
    destruct (expired now {| oid := next_oid s; micros := t |});
      rewrite !app_nil_r; [ reflexivity | symmetry; apply app_assoc ].
  - simpl. exact IH.
  - unfold step.
    destruct (message_queue (state s)) as [ | d rest] eqn:Eq.
    + rewrite (main_loop_body_empty now w _ Eq). simpl. rewrite Eq. exact IH.
    + destruct (main_loop_body_pop now w _ d rest Eq) as [Hpop _].
      destruct (main_loop_body now w (state s)) as [g calls].
      simpl in *. rewrite received_fresh_snoc, dequeued_snoc, IH, Hpop. simpl.
      rewrite app_nil_r, <- app_assoc. reflexivity.
Qed.

(** X13: in every run of the two threads, the triggers that were fresh when
    the callback received them are, in arrival order, those the main loop
    has taken from the queue followed by those still in the queue: triggers
    are served first in, first out, none is lost and none is served twice. *)
Theorem triggers_served_in_arrival_order (inputs : list input) :
  received_fresh (history (run inputs))
  = dequeued (history (run inputs)) ++ message_queue (state (run inputs)).
Proof.
  unfold run.
  assert (H0 : received_fresh (history initial)
               = dequeued (history initial) ++ message_queue (state initial))
    by reflexivity.
  revert H0. generalize initial.
  induction inputs as [ | i inputs IH]; intros s Hs; simpl; [ exact Hs | ].
  apply IH, fifo_step, Hs.
Qed.

(* ================================================================== *)
(** * The camera life cycle *)

Module CameraFacts.
Import Camera.

Lemma uniform_ret {A : Type} (a : A) : uniform (ret a).
Proof. intros log. unfold ret. simpl. rewrite app_nil_r. reflexivity. Qed.

Lemma uniform_raise {A : Type} : uniform (@raise A).
Proof. intros log. unfold raise. simpl. rewrite app_nil_r. reflexivity. Qed.

Lemma uniform_perform {A : Type} (c : sdk_call) (answer : outcome A) :
  uniform (perform c answer).
Proof. intros log. reflexivity. Qed.

Lemma uniform_bind {A B : Type} (m : action A) (k : A -> action B) :
  uniform m -> (forall a, uniform (k a)) -> uniform (bind m k).
Proof.
  intros Hm Hk log. unfold bind. rewrite (Hm log).
  destruct (m []) as [[a | ] c]; simpl.
  - rewrite (Hk a (log ++ c)), (Hk a c). simpl.
    rewrite app_assoc. reflexivity.
  - reflexivity.
Qed.

Lemma uniform_if {A : Type} (b : bool) (m1 m2 : action A) :
  uniform m1 -> uniform m2 -> uniform (if b then m1 else m2).
Proof. destruct b; auto. Qed.

Ltac uniformity :=
  repeat first
    [ apply uniform_ret | apply uniform_raise | apply uniform_perform
    | apply uniform_if | apply uniform_bind | intro ].

Lemma uniform_initialize_try (a : init_answers) : uniform (initialize_try a).
Proof. unfold initialize_try. uniformity. Qed.

Lemma uniform_initialize_except (a : init_answers) :
  uniform (initialize_except a).
Proof. unfold initialize_except. uniformity. Qed.

Lemma uniform_teardown (t : teardown_answers) : uniform (teardown t).
Proof. unfold teardown. uniformity. Qed.

Lemma uniform_release_camera (r : release_answers) : uniform (release_camera r).
Proof. unfold release_camera. uniformity. Qed.

(** The [try] block goes through exactly when [init_ok] holds, and makes the
    first [reached] calls. *)
Lemma initialize_try_spec (a : init_answers) (log : list sdk_call) :
  initialize_try a log
  = (if init_ok a then Returns tt else Raises,
     log ++ firstn (reached a) init_calls).
Proof.
  rewrite (uniform_initialize_try a log). f_equal; [ | f_equal ];
    destruct a as [i e c o m s g ic cl h d f];
    unfold init_ok, reached, initialize_try, bind, perform, ret, raise,
      returns_, returns_ok;
    cbn [on_Initialize on_EnumDevices on_CreateHandle on_OpenDevice
         on_SetTriggerMode on_SetTriggerSource on_StartGrabbing];
    (destruct i as [ri | ]; [ | reflexivity ]);
    (destruct e as [[re n] | ]; [ | reflexivity ]); cbn [fst snd];
    (destruct (re =? MV_OK); [ | reflexivity ]);
    (destruct (n =? 0); [ reflexivity | ]);
    (destruct c as [rc | ]; [ | reflexivity ]);
    (destruct (rc =? MV_OK); [ | reflexivity ]);
    (destruct o as [ro | ]; [ | reflexivity ]);
    (destruct (ro =? MV_OK); [ | reflexivity ]);
    (destruct m as [rm | ]; [ | reflexivity ]);
    (destruct s as [rs | ]; [ | reflexivity ]);
    (destruct g as [rg | ]; [ | reflexivity ]);
    destruct (rg =? MV_OK); reflexivity.
Qed.

(** The [except] clause returns exactly when [handler_returns] holds, and
    then makes the calls [handler_calls]. *)
Lemma initialize_except_spec (a : init_answers) (log : list sdk_call) :
  fst (initialize_except a log)
  = (if handler_returns a then Returns tt else Raises)
  /\ (handler_returns a = true ->
      snd (initialize_except a log) = log ++ handler_calls a).
Proof.
  rewrite (uniform_initialize_except a log). cbn [fst snd].
  destruct a as [i e c o m s g ic cl h d f].
  unfold handler_returns, handler_calls, initialize_except, bind, perform, ret,
    returns_.
  cbn [on_IsDeviceConnected on_CloseDevice cam_handle on_DestroyHandle on_Finalize].
  destruct ic as [[ | ] | ]; cbn.
  - destruct cl as [rc | ]; cbn; [ | split; [ reflexivity | discriminate ] ].
    destruct h; cbn.
    + destruct d as [rd | ]; cbn; [ | split; [ reflexivity | discriminate ] ].
      destruct f; cbn; split; try reflexivity; discriminate.
    + destruct f; cbn; split; try reflexivity; discriminate.
  - destruct h; cbn.
    + destruct d as [rd | ]; cbn; [ | split; [ reflexivity | discriminate ] ].
      destruct f; cbn; split; try reflexivity; discriminate.
    + destruct f; cbn; split; try reflexivity; discriminate.
  - split; [ reflexivity | discriminate ].
Qed.

Lemma teardown_spec (t : teardown_answers) (log : list sdk_call) :
  fst (teardown t log) = (if teardown_returns t then Returns tt else Raises)
  /\ (teardown_returns t = true ->
      snd (teardown t log) = log ++ teardown_calls t).
Proof.
  rewrite (uniform_teardown t log). cbn [fst snd].
  destruct t as [wc sg cl h d].
  unfold teardown_returns, teardown_calls, teardown, bind, perform, ret, returns_.
  cbn [was_connected on_StopGrabbing on_Close had_handle on_Destroy].
  destruct wc as [[ | ] | ]; cbn.
  - destruct sg as [rs | ]; cbn; [ | split; [ reflexivity | discriminate ] ].
    destruct cl as [rc | ]; cbn; [ | split; [ reflexivity | discriminate ] ].
    destruct h; cbn; [ destruct d as [rd | ]; cbn | ];
      split; try reflexivity; discriminate.
  - destruct h; cbn; [ destruct d as [rd | ]; cbn | ];
      split; try reflexivity; discriminate.
  - split; [ reflexivity | discriminate ].
Qed.

(** [initialize_camera] adds its calls to those made before. *)
Lemma initialize_camera_log (a : init_answers) (flag : bool)
  (log : list sdk_call) :
  initialize_camera a flag log
  = (fst (fst (initialize_camera a flag [])),
     snd (fst (initialize_camera a flag [])),
     log ++ snd (initialize_camera a flag [])).
Proof.
  unfold initialize_camera.
  rewrite (uniform_initialize_try a log).
  destruct (initialize_try a []) as [[u | ] c] eqn:Etry; cbn [fst snd].
  - rewrite (uniform_initialize_try a []) in Etry. cbn in Etry.
    injection Etry as _ <-. reflexivity.
  - rewrite (uniform_initialize_except a (log ++ c)).
    rewrite (uniform_initialize_except a c).
    destruct (initialize_except a []) as [[u | ] c'] eqn:Eexc; cbn [fst snd];
      rewrite app_assoc; reflexivity.
Qed.

Lemma reached_bounds (a : init_answers) :
  (1 <= reached a <= 7)%nat /\ (init_ok a = true -> reached a = 7%nat).
Proof.
  unfold reached, init_ok.
  destruct (returns_ (on_Initialize a)); cbn; [ | split; [ lia | discriminate ] ].
  destruct (match on_EnumDevices a with
            | Returns (ret, n) => (ret =? MV_OK) && negb (n =? 0)
            | Raises => false
            end); cbn; [ | split; [ lia | discriminate ] ].
  destruct (returns_ok (on_CreateHandle a)); cbn;
    [ | split; [ lia | discriminate ] ].
  destruct (returns_ok (on_OpenDevice a)); cbn;
    [ | split; [ lia | discriminate ] ].
  destruct (returns_ (on_SetTriggerMode a)); cbn;
    [ | split; [ lia | discriminate ] ].
  destruct (returns_ (on_SetTriggerSource a)); cbn;
    [ | split; [ lia | discriminate ] ].
  split; [ lia | reflexivity ].
Qed.

Lemma In_firstn {A : Type} (x : A) (n : nat) (l : list A) :
  In x (firstn n l) -> In x l.
Proof.
  intros H. rewrite <- (firstn_skipn n l). apply in_or_app. left; exact H.
Qed.

(** [initialize_camera], case by case. *)
Lemma initialize_camera_cases (a : init_answers) (flag : bool) :
  initialize_camera a flag []
  = if init_ok a then (Returns true, true, init_calls)
    else if handler_returns a
         then (Returns false, false,
               firstn (reached a) init_calls ++ handler_calls a)
         else (Raises, flag, snd (initialize_camera a flag [])).
Proof.
  unfold initialize_camera at 1. rewrite initialize_try_spec. cbn [app].
  destruct (init_ok a) eqn:Hok.
  - rewrite (proj2 (reached_bounds a) Hok). reflexivity.
  - destruct (initialize_except_spec a (firstn (reached a) init_calls))
      as [Hfst Hsnd].
    destruct (initialize_except a (firstn (reached a) init_calls))
      as [[u | ] c] eqn:Eexc; cbn [fst snd] in *.
    + destruct (handler_returns a); [ | discriminate ].
      rewrite (Hsnd eq_refl). reflexivity.
    + destruct (handler_returns a); [ discriminate | ].
      unfold initialize_camera. rewrite initialize_try_spec, Hok. cbn [app].
      rewrite Eexc. reflexivity.
Qed.

(** X14: [initialize_camera] returns [True] exactly when the device
    enumeration returns [MV_OK] with at least one device and the creation of
    the handle, the opening of the device and the start of the acquisition
    each return [MV_OK] (and no call raises); the codes of the two
    [MV_CC_SetEnumValue] calls that select the software trigger are not
    looked at.  It then has made the seven calls of the [try] block and no
    other, and [camera_initialized] is [True]. *)
Theorem initialize_camera_succeeds_iff (a : init_answers) (flag : bool) :
  (fst (fst (initialize_camera a flag [])) = Returns true <-> init_ok a = true)
  /\ (init_ok a = true ->
      initialize_camera a flag [] = (Returns true, true, init_calls)).
Proof.
  rewrite (initialize_camera_cases a flag).
  destruct (init_ok a).
  - split; [ split; reflexivity | reflexivity ].
  - split; [ | discriminate ].
    destruct (handler_returns a); split; discriminate.
Qed.

Lemma initialize_camera_succeeds_iff_witness :
  let a :=
    {| on_Initialize := Returns 0;
       on_EnumDevices := Returns (MV_OK, 1);
       on_CreateHandle := Returns MV_OK;
       on_OpenDevice := Returns MV_OK;
       on_SetTriggerMode := Returns 2147483652;
       on_SetTriggerSource := Returns 2147483652;
       on_StartGrabbing := Returns MV_OK;
       on_IsDeviceConnected := Raises;
       on_CloseDevice := Raises;
       cam_handle := true;
       on_DestroyHandle := Raises;
       on_Finalize := Raises |} in
  init_ok a = true
  /\ initialize_camera a false [] = (Returns true, true, init_calls).
Proof.
  cbv zeta. split; [ reflexivity | ].
  apply (proj2 (initialize_camera_succeeds_iff
    {| on_Initialize := Returns 0;
       on_EnumDevices := Returns (MV_OK, 1);
       on_CreateHandle := Returns MV_OK;
       on_OpenDevice := Returns MV_OK;
       on_SetTriggerMode := Returns 2147483652;
       on_SetTriggerSource := Returns 2147483652;
       on_StartGrabbing := Returns MV_OK;
       on_IsDeviceConnected := Raises;
       on_CloseDevice := Raises;
       cam_handle := true;
       on_DestroyHandle := Raises;
       on_Finalize := Raises |} false)).
  reflexivity.
Defined.

Lemma handler_calls_finalize (a : init_answers) :
  exists calls,
    handler_calls a = calls ++ [MV_CC_Finalize]
    /\ ~ In MV_CC_Finalize calls.
Proof.
  unfold handler_calls.
  destruct (on_IsDeviceConnected a) as [[ | ] | ]; destruct (cam_handle a);
    eexists; (split; [ rewrite ?app_assoc; reflexivity | ]);
    simpl; intuition discriminate.
Qed.

(** X15: when a step of [initialize_camera] fails, no later step of the
    [try] block is attempted, and, the calls of the [except] clause
    returning, the function returns [False] with [camera_initialized] set to
    [False] after it has asked whether the device is connected, closed it if
    so, destroyed the handle if there is one, and called [MV_CC_Finalize],
    once and last. *)
Theorem initialize_camera_rolls_back (a : init_answers) (flag : bool)
  (Hfail : init_ok a = false) (Hreturns : handler_returns a = true) :
  initialize_camera a flag []
  = (Returns false, false, firstn (reached a) init_calls ++ handler_calls a)
  /\ (1 <= reached a <= 7)%nat
  /\ count_occ sdk_call_eq_dec (snd (initialize_camera a flag [])) MV_CC_Finalize
     = 1%nat
  /\ last (snd (initialize_camera a flag [])) MV_CC_Initialize = MV_CC_Finalize.
Proof.
  rewrite (initialize_camera_cases a flag), Hfail, Hreturns. cbn [snd].
  split; [ reflexivity | ]. split; [ apply reached_bounds | ].
  destruct (handler_calls_finalize a) as (calls & -> & Hnot).
  split.
  - rewrite !count_occ_app. cbn.
    rewrite (proj1 (count_occ_not_In sdk_call_eq_dec calls MV_CC_Finalize) Hnot).
    rewrite (proj1 (count_occ_not_In sdk_call_eq_dec _ MV_CC_Finalize)).
    + reflexivity.
    + intros Hin. apply In_firstn in Hin. simpl in Hin. intuition discriminate.
  - rewrite app_assoc. apply last_last.
Qed.

Lemma initialize_camera_rolls_back_witness :
  let a :=
    {| on_Initialize := Returns 0;
       on_EnumDevices := Returns (MV_OK, 1);
       on_CreateHandle := Returns MV_OK;
       on_OpenDevice := Returns 2147484163;
       on_SetTriggerMode := Returns 0;
       on_SetTriggerSource := Returns 0;
       on_StartGrabbing := Returns 0;
       on_IsDeviceConnected := Returns false;
       on_CloseDevice := Returns 0;
       cam_handle := true;
       on_DestroyHandle := Returns 0;
       on_Finalize := Returns 0 |} in
  init_ok a = false /\ handler_returns a = true
  /\ initialize_camera a true []
     = (Returns false, false,
        [MV_CC_Initialize; MV_CC_EnumDevices; MV_CC_CreateHandle;
         MV_CC_OpenDevice; MV_CC_IsDeviceConnected; MV_CC_DestroyHandle;
         MV_CC_Finalize]).
Proof.
  cbv zeta. split; [ reflexivity | ]. split; [ reflexivity | ].
  apply (proj1 (initialize_camera_rolls_back
    {| on_Initialize := Returns 0;
       on_EnumDevices := Returns (MV_OK, 1);
       on_CreateHandle := Returns MV_OK;
       on_OpenDevice := Returns 2147484163;
       on_SetTriggerMode := Returns 0;
       on_SetTriggerSource := Returns 0;
       on_StartGrabbing := Returns 0;
       on_IsDeviceConnected := Returns false;
       on_CloseDevice := Returns 0;
       cam_handle := true;
       on_DestroyHandle := Returns 0;
       on_Finalize := Returns 0 |} true eq_refl eq_refl)).
Defined.

(** [reconnect_camera], case by case. *)
Lemma reconnect_camera_cases (t : teardown_answers) (a : init_answers)
  (flag : bool) :
  reconnect_camera t a flag
  = if teardown_returns t then
      if init_ok a
      then (true, true, teardown_calls t ++ init_calls)
      else (false, false, teardown_calls t ++ snd (initialize_camera a flag []))
    else (false, false, snd (teardown t [])).
Proof.
  unfold reconnect_camera.
  destruct (teardown_spec t []) as [Hfst Hsnd].
  destruct (teardown t []) as [[u | ] log] eqn:Et; cbn [fst snd] in *.
  - destruct (teardown_returns t); [ | discriminate ].
    rewrite (Hsnd eq_refl). cbn [app].
    rewrite (initialize_camera_log a flag (teardown_calls t)).
    rewrite (initialize_camera_cases a flag).
    destruct (init_ok a); [ reflexivity | ].
    destruct (handler_returns a); reflexivity.
  - destruct (teardown_returns t); [ discriminate | reflexivity ].
Qed.

(** X16: [reconnect_camera] returns [True] exactly when no call of the
    tear-down raises and the initialisation that follows goes through, and
    whatever happens it leaves [camera_initialized] equal to what it
    returns, also when the tear-down or the clean-up of a failed
    initialisation raises. *)
Theorem reconnect_camera_result (t : teardown_answers) (a : init_answers)
  (flag : bool) :
  snd (fst (reconnect_camera t a flag)) = fst (fst (reconnect_camera t a flag))
  /\ (fst (fst (reconnect_camera t a flag)) = true
      <-> teardown_returns t = true /\ init_ok a = true).
Proof.
  rewrite (reconnect_camera_cases t a flag).
  destruct (teardown_returns t); [ destruct (init_ok a) | ]; cbn [fst snd];
    (split; [ reflexivity | ]); split;
    try discriminate; try (intros [H1 H2]; discriminate); auto.
Qed.

Lemma teardown_calls_no_session_call (t : teardown_answers) :
  ~ In MV_CC_Finalize (teardown_calls t)
  /\ ~ In MV_CC_Initialize (teardown_calls t)
  /\ count_occ sdk_call_eq_dec (teardown_calls t) (time_sleep 1) = 1%nat.
Proof.
  unfold teardown_calls.
  destruct (was_connected t) as [[ | ] | ]; destruct (had_handle t);
    (split; [ simpl; intuition discriminate | ]);
    (split; [ simpl; intuition discriminate | reflexivity ]).
Qed.

(** X17: when its tear-down returns, [reconnect_camera] first asks whether
    the device is connected, stops the acquisition and closes the device if
    so, destroys the handle if there is one, sleeps one second, once, and
    only then runs [initialize_camera]; the tear-down never calls
    [MV_CC_Finalize], so the SDK is initialised again without having been
    finalised. *)
Theorem reconnect_camera_order (t : teardown_answers) (a : init_answers)
  (flag : bool) (Ht : teardown_returns t = true) :
  snd (reconnect_camera t a flag)
  = teardown_calls t ++ snd (initialize_camera a flag [])
  /\ ~ In MV_CC_Finalize (teardown_calls t)
  /\ ~ In MV_CC_Initialize (teardown_calls t)
  /\ count_occ sdk_call_eq_dec (teardown_calls t) (time_sleep 1) = 1%nat
  /\ hd_error (snd (initialize_camera a flag [])) = Some MV_CC_Initialize.
Proof.
  split; [ | split; [ | split; [ | split ] ] ];
    try apply teardown_calls_no_session_call.
  - rewrite (reconnect_camera_cases t a flag), Ht.
    rewrite (initialize_camera_cases a flag).
    destruct (init_ok a); reflexivity.
  - unfold initialize_camera. rewrite initialize_try_spec. cbn [app].
    destruct (reached_bounds a) as [[Hlo _] _].
    destruct (reached a) as [ | n]; [ lia | ].
    destruct (init_ok a); [ reflexivity | ].
    rewrite (uniform_initialize_except a).
    destruct (fst (initialize_except a [])); reflexivity.
Qed.

Lemma reconnect_camera_order_witness :
  let t :=
    {| was_connected := Returns true; on_StopGrabbing := Returns 0;
       on_Close := Returns 0; had_handle := true; on_Destroy := Returns 0 |} in
  let a :=
    {| on_Initialize := Returns 0;
       on_EnumDevices := Returns (MV_OK, 0);
       on_CreateHandle := Returns 0;
       on_OpenDevice := Returns 0;
       on_SetTriggerMode := Returns 0;
       on_SetTriggerSource := Returns 0;
       on_StartGrabbing := Returns 0;
       on_IsDeviceConnected := Returns false;
       on_CloseDevice := Returns 0;
       cam_handle := false;
       on_DestroyHandle := Returns 0;
       on_Finalize := Returns 0 |} in
  teardown_returns t = true
  /\ snd (reconnect_camera t a true)
     = [MV_CC_IsDeviceConnected; MV_CC_StopGrabbing; MV_CC_CloseDevice;
        MV_CC_DestroyHandle; time_sleep 1;
        MV_CC_Initialize; MV_CC_EnumDevices; MV_CC_IsDeviceConnected;
        MV_CC_Finalize].
Proof.
  cbv zeta. split; [ reflexivity | ].
  apply (proj1 (reconnect_camera_order
    {| was_connected := Returns true; on_StopGrabbing := Returns 0;
       on_Close := Returns 0; had_handle := true; on_Destroy := Returns 0 |}
    {| on_Initialize := Returns 0;
       on_EnumDevices := Returns (MV_OK, 0);
       on_CreateHandle := Returns 0;
       on_OpenDevice := Returns 0;
       on_SetTriggerMode := Returns 0;
       on_SetTriggerSource := Returns 0;
       on_StartGrabbing := Returns 0;
       on_IsDeviceConnected := Returns false;
       on_CloseDevice := Returns 0;
       cam_handle := false;
       on_DestroyHandle := Returns 0;
       on_Finalize := Returns 0 |} true eq_refl)).
Defined.

(** X18: when a failed fetch sends [capture_and_ocr] to [reconnect_camera],
    the failure counter is reset to zero exactly when the reconnection left
    [camera_initialized] true, that is when the tear-down returned and every
    step of the initialisation went through; otherwise the counter is one
    more than before and [camera_initialized] is false. *)
Theorem counter_reset_iff_camera_reinitialised (cf : Z) (w : responses)
  (t : teardown_answers) (a : init_answers) (flag : bool)
  (Hw : fetch_fails w = true) (Hcf : CAMERA_MAX_FAILURES <= cf + 1)
  (Hre : on_reconnect w = fst (fst (reconnect_camera t a flag))) :
  (counter_after cf w = 0 <-> snd (fst (reconnect_camera t a flag)) = true)
  /\ (counter_after cf w = 0
      <-> teardown_returns t = true /\ init_ok a = true)
  /\ (counter_after cf w <> 0 ->
      counter_after cf w = cf + 1
      /\ snd (fst (reconnect_camera t a flag)) = false).
Proof.
  unfold counter_after. rewrite (capture_on_failure cf w Hw). cbn [fst].
  destruct (Z.leb_spec CAMERA_MAX_FAILURES (cf + 1)) as [_ | Hgt]; [ | lia ].
  rewrite Hre, (reconnect_camera_cases t a flag).
  unfold CAMERA_MAX_FAILURES in Hcf.
  destruct (teardown_returns t); [ destruct (init_ok a) | ]; cbn [fst snd].
  - split; [ tauto | ]. split; [ tauto | ]. intros H; now elim H.
  - split; [ split; [ lia | discriminate ] | ].
    split; [ split; [ lia | intros [_ H]; discriminate ] | ]. auto.
  - split; [ split; [ lia | discriminate ] | ].
    split; [ split; [ lia | intros [H _]; discriminate ] | ]. auto.
Qed.

Lemma counter_reset_iff_camera_reinitialised_witness :
  let t :=
    {| was_connected := Returns true; on_StopGrabbing := Returns 0;
       on_Close := Returns 0; had_handle := true; on_Destroy := Returns 0 |} in
  let a :=
    {| on_Initialize := Returns 0;
       on_EnumDevices := Returns (MV_OK, 1);
       on_CreateHandle := Returns MV_OK;
       on_OpenDevice := Returns MV_OK;
       on_SetTriggerMode := Returns 0;
       on_SetTriggerSource := Returns 0;
       on_StartGrabbing := Returns MV_OK;
       on_IsDeviceConnected := Returns false;
       on_CloseDevice := Returns 0;
       cam_handle := false;
       on_DestroyHandle := Returns 0;
       on_Finalize := Returns 0 |} in
  let w :=
    {| on_trigger := Returns tt; on_fetch := Returns 2147483655;
       on_reconnect := true; on_image := Returns tt; on_ocr := Raises |} in
  fetch_fails w = true /\ CAMERA_MAX_FAILURES <= 2 + 1
  /\ on_reconnect w = fst (fst (reconnect_camera t a true))
  /\ (counter_after 2 w = 0 <-> snd (fst (reconnect_camera t a true)) = true)
  /\ counter_after 2 w = 0.
Proof.
  cbv zeta. split; [ reflexivity | ]. split; [ discriminate | ].
  split; [ reflexivity | ]. split; [ | reflexivity ].
  refine (proj1 (counter_reset_iff_camera_reinitialised 2
    {| on_trigger := Returns tt; on_fetch := Returns 2147483655;
       on_reconnect := true; on_image := Returns tt; on_ocr := Raises |}
    {| was_connected := Returns true; on_StopGrabbing := Returns 0;
       on_Close := Returns 0; had_handle := true; on_Destroy := Returns 0 |}
    {| on_Initialize := Returns 0;
       on_EnumDevices := Returns (MV_OK, 1);
       on_CreateHandle := Returns MV_OK;
       on_OpenDevice := Returns MV_OK;
       on_SetTriggerMode := Returns 0;
       on_SetTriggerSource := Returns 0;
       on_StartGrabbing := Returns MV_OK;
       on_IsDeviceConnected := Returns false;
       on_CloseDevice := Returns 0;
       cam_handle := false;
       on_DestroyHandle := Returns 0;
       on_Finalize := Returns 0 |} true eq_refl _ _)).
  - discriminate.
  - reflexivity.
Defined.

Lemma release_camera_spec (r : release_answers) (log : list sdk_call) :
  fst (release_camera r log)
  = (if release_returns r then Returns tt else Raises)
  /\ (release_returns r = true ->
      snd (release_camera r log) = log ++ release_calls).
Proof.
  rewrite (uniform_release_camera r log). cbn [fst snd].
  destruct r as [s c d f].
  unfold release_returns, release_calls, release_camera, bind, perform, ret,
    returns_.
  cbn [on_Stop on_CloseDevice' on_DestroyHandle' on_Finalize'].
  destruct s; cbn; [ | split; [ reflexivity | discriminate ] ].
  destruct c; cbn; [ | split; [ reflexivity | discriminate ] ].
  destruct d; cbn; [ | split; [ reflexivity | discriminate ] ].
  destruct f; cbn; split; try reflexivity; discriminate.
Qed.

(** The start-up, case by case. *)
Lemma startup_cases (a : init_answers) (on_new_client on_loop_start : outcome unit)
  (r : release_answers) :
  startup a on_new_client on_loop_start r
  = if init_ok a then
      if returns_ on_new_client && returns_ on_loop_start
      then (Running, true, true, init_calls ++ [new_client; loop_start])
      else
        let made :=
          init_calls
          ++ new_client :: (if returns_ on_new_client then [loop_start] else []) in
        if release_returns r
        then (Exit 1, true, returns_ on_new_client, made ++ release_calls)
        else (Uncaught, true, returns_ on_new_client,
              snd (release_camera r made))
    else if handler_returns a
         then (Exit 1, false, false,
               firstn (reached a) init_calls ++ handler_calls a)
         else (Uncaught, false, false, snd (initialize_camera a false [])).
Proof.
  unfold startup. rewrite (initialize_camera_cases a false).
  destruct (init_ok a); [ | destruct (handler_returns a); reflexivity ].
  unfold bind at 1, perform. cbv beta iota zeta.
  destruct on_new_client as [u | ]; cbv beta iota; cbn [returns_ andb].
  - destruct on_loop_start as [u' | ]; cbv beta iota; cbn [returns_].
    + rewrite <- app_assoc. reflexivity.
    + rewrite <- app_assoc. cbn [app].
      destruct (release_camera_spec r (init_calls ++ [new_client; loop_start]))
        as [Hfst Hsnd].
      destruct (release_camera r (init_calls ++ [new_client; loop_start]))
        as [[u' | ] log]; cbn [fst snd] in *;
        destruct (release_returns r); try discriminate;
        [ rewrite (Hsnd eq_refl) | ]; reflexivity.
  - destruct (release_camera_spec r (init_calls ++ [new_client]))
      as [Hfst Hsnd].
    destruct (release_camera r (init_calls ++ [new_client]))
      as [[u' | ] log]; cbn [fst snd] in *;
      destruct (release_returns r); try discriminate;
      [ rewrite (Hsnd eq_refl) | ]; reflexivity.
Qed.

(** X19: the start-up enters the main loop exactly when the camera
    initialisation goes through and the MQTT client is created and started;
    it has then made the seven camera calls, [new_client] and [loop_start],
    and nothing else.  Whenever it ends in [exit], the code is 1 and the
    last call made was [MV_CC_Finalize]; when the camera initialisation
    failed, no MQTT call was made. *)
Theorem startup_endings (a : init_answers) (on_new_client on_loop_start : outcome unit)
  (r : release_answers) (e : ending) (flag client : bool)
  (calls : list sdk_call)
  (H : startup a on_new_client on_loop_start r = (e, flag, client, calls)) :
  (e = Running
   <-> init_ok a = true /\ returns_ on_new_client = true
       /\ returns_ on_loop_start = true)
  /\ (e = Running ->
      flag = true /\ client = true
      /\ calls = init_calls ++ [new_client; loop_start])
  /\ (forall code, e = Exit code ->
      code = 1
      /\ last calls MV_CC_Initialize = MV_CC_Finalize
      /\ (init_ok a = false ->
          client = false /\ ~ In new_client calls /\ ~ In loop_start calls)).
Proof.
  rewrite (startup_cases a on_new_client on_loop_start r) in H.
  destruct (init_ok a) eqn:Hok.
  - destruct (returns_ on_new_client && returns_ on_loop_start) eqn:Hmqtt.
    + injection H as <- <- <- <-.
      apply andb_true_iff in Hmqtt as [H1 H2].
      split; [ split; auto | ]. split; [ auto | ]. discriminate.
    + assert (Hnot : ~ (true = true /\ returns_ on_new_client = true
                        /\ returns_ on_loop_start = true)).
      { intros (_ & H1 & H2). rewrite H1, H2 in Hmqtt. discriminate. }
      cbv zeta in H. destruct (release_returns r); injection H as <- <- <- <-.
      * split; [ split; [ discriminate | intros H; now elim Hnot ] | ].
        split; [ discriminate | ].
        intros code Hc. injection Hc as <-. split; [ reflexivity | ].
        split; [ | discriminate ].
        destruct (returns_ on_new_client); reflexivity.
      * split; [ split; [ discriminate | intros H; now elim Hnot ] | ].
        split; discriminate.
  - destruct (handler_returns a) eqn:Hh; injection H as <- <- <- <-.
    + split; [ split; [ discriminate | intros (H & _); discriminate ] | ].
      split; [ discriminate | ].
      intros code Hc. injection Hc as <-. split; [ reflexivity | ].
      destruct (handler_calls_finalize a) as (hc & Ehc & _).
      split.
      * rewrite Ehc, app_assoc. apply last_last.
      * intros _. split; [ reflexivity | ].
        assert (Hno : forall c, c = new_client \/ c = loop_start ->
                  ~ In c (firstn (reached a) init_calls ++ handler_calls a)).
        { intros c Hc Hin. apply in_app_or in Hin. destruct Hin as [Hin | Hin].
          - apply In_firstn in Hin. simpl in Hin.
            destruct Hc; subst c; intuition discriminate.
          - unfold handler_calls in Hin.
            destruct (on_IsDeviceConnected a) as [[ | ] | ];
              destruct (cam_handle a); simpl in Hin;
              destruct Hc; subst c; intuition discriminate. }
        split; apply Hno; auto.
    + split; [ split; [ discriminate | intros (H & _); discriminate ] | ].
      split; discriminate.
Qed.

Lemma startup_endings_witness :
  let a :=
    {| on_Initialize := Returns 0;
       on_EnumDevices := Returns (MV_OK, 1);
       on_CreateHandle := Returns MV_OK;
       on_OpenDevice := Returns MV_OK;
       on_SetTriggerMode := Returns 0;
       on_SetTriggerSource := Returns 0;
       on_StartGrabbing := Returns MV_OK;
       on_IsDeviceConnected := Returns false;
       on_CloseDevice := Returns 0;
       cam_handle := false;
       on_DestroyHandle := Returns 0;
       on_Finalize := Returns 0 |} in
  let r :=
    {| on_Stop := Returns 0; on_CloseDevice' := Returns 0;
       on_DestroyHandle' := Returns 0; on_Finalize' := Returns 0 |} in
  let calls :=
    init_calls ++ [new_client; MV_CC_StopGrabbing; MV_CC_CloseDevice;
                   MV_CC_DestroyHandle; MV_CC_Finalize] in
  startup a Raises (Returns tt) r = (Exit 1, true, false, calls)
  /\ forall code, Exit 1 = Exit code ->
       code = 1
       /\ last calls MV_CC_Initialize = MV_CC_Finalize
       /\ (init_ok a = false ->
           false = false /\ ~ In new_client calls /\ ~ In loop_start calls).
Proof.
  cbv zeta. split; [ reflexivity | ].
  refine (proj2 (proj2 (startup_endings
    {| on_Initialize := Returns 0;
       on_EnumDevices := Returns (MV_OK, 1);
       on_CreateHandle := Returns MV_OK;
       on_OpenDevice := Returns MV_OK;
       on_SetTriggerMode := Returns 0;
       on_SetTriggerSource := Returns 0;
       on_StartGrabbing := Returns MV_OK;
       on_IsDeviceConnected := Returns false;
       on_CloseDevice := Returns 0;
       cam_handle := false;
       on_DestroyHandle := Returns 0;
       on_Finalize := Returns 0 |}
    Raises (Returns tt)
    {| on_Stop := Returns 0; on_CloseDevice' := Returns 0;
       on_DestroyHandle' := Returns 0; on_Finalize' := Returns 0 |}
    (Exit 1) true false _ _))).
  reflexivity.
Defined.

(** X20: over a reconnection followed by the clean-up at exit, no call
    raising, [MV_CC_Finalize] is called exactly once: by the [except] clause
    of [initialize_camera] when the reconnection failed, by the clean-up
    when it succeeded.  After a failed reconnection the clean-up makes no
    camera call at all. *)
Theorem finalize_once_over_reconnect_and_cleanup (t : teardown_answers)
  (a : init_answers) (flag : bool) (r : release_answers)
  (on_loop_stop on_disconnect : outcome unit) (mqtt_client : bool)
  (Ht : teardown_returns t = true) (Hh : handler_returns a = true)
  (Hr : release_returns r = true) :
  let reconnected := reconnect_camera t a flag in
  let final :=
    snd (cleanup r on_loop_stop on_disconnect (snd (fst reconnected))
           mqtt_client []) in
  count_occ sdk_call_eq_dec (snd reconnected ++ final) MV_CC_Finalize = 1%nat
  /\ (fst (fst reconnected) = false ->
      forall c, In c final -> c = loop_stop \/ c = disconnect).
Proof.
  cbv zeta. rewrite (reconnect_camera_cases t a flag), Ht.
  destruct (teardown_calls_no_session_call t) as (Hfin & _ & _).
  assert (Hmqtt : forall log,
            snd ((if mqtt_client
                  then perform loop_stop on_loop_stop ;;;
                       perform disconnect on_disconnect ;;; ret tt
                  else ret tt) log)
            = log ++ (if mqtt_client
                      then loop_stop
                           :: (if returns_ on_loop_stop then [disconnect] else [])
                      else [])).
  { intros log. unfold bind, perform, ret.
    destruct mqtt_client; [ | rewrite app_nil_r; reflexivity ].
    destruct on_loop_stop; cbn; [ | reflexivity ].
    destruct on_disconnect; cbn; rewrite <- app_assoc; reflexivity. }
  rewrite count_occ_app.
  destruct (init_ok a) eqn:Hok; cbn [fst snd].
  - (* reconnected: the clean-up releases the camera *)
    split; [ | discriminate ].
    unfold cleanup, bind.
    destruct (release_camera_spec r []) as [Hfst Hsnd].
    rewrite Hr in Hfst. specialize (Hsnd Hr).
    destruct (release_camera r []) as [[u | ] log]; cbn [fst snd] in *;
      [ | discriminate ].
    subst log. rewrite Hmqtt. rewrite !count_occ_app.
    rewrite (proj1 (count_occ_not_In sdk_call_eq_dec _ MV_CC_Finalize) Hfin).
    destruct mqtt_client; [ destruct (returns_ on_loop_stop) | ]; reflexivity.
  - (* not reconnected: [initialize_camera] has released what it had *)
    rewrite (initialize_camera_cases a flag), Hok, Hh. cbn [snd].
    unfold cleanup, bind, ret at 1. rewrite Hmqtt. cbn [app].
    split.
    + destruct (handler_calls_finalize a) as (hc & -> & Hnot).
      rewrite !count_occ_app.
      rewrite (proj1 (count_occ_not_In sdk_call_eq_dec _ MV_CC_Finalize) Hfin).
      rewrite (proj1 (count_occ_not_In sdk_call_eq_dec hc MV_CC_Finalize) Hnot).
      rewrite (proj1 (count_occ_not_In sdk_call_eq_dec
                        (firstn (reached a) init_calls) MV_CC_Finalize)).
      * destruct mqtt_client; [ destruct (returns_ on_loop_stop) | ];
          reflexivity.
      * intros Hin. apply In_firstn in Hin. simpl in Hin.
        intuition discriminate.
    + intros _ c Hc.
      destruct mqtt_client;
        [ destruct on_loop_stop; [ destruct on_disconnect | ] | ];
        simpl in Hc; intuition.
Qed.

Lemma finalize_once_over_reconnect_and_cleanup_witness :
  let t :=
    {| was_connected := Returns true; on_StopGrabbing := Returns 0;
       on_Close := Returns 0; had_handle := true; on_Destroy := Returns 0 |} in
  let a :=
    {| on_Initialize := Returns 0;
       on_EnumDevices := Returns (MV_OK, 0);
       on_CreateHandle := Returns 0;
       on_OpenDevice := Returns 0;
       on_SetTriggerMode := Returns 0;
       on_SetTriggerSource := Returns 0;
       on_StartGrabbing := Returns 0;
       on_IsDeviceConnected := Returns false;
       on_CloseDevice := Returns 0;
       cam_handle := false;
       on_DestroyHandle := Returns 0;
       on_Finalize := Returns 0 |} in
  let r :=
    {| on_Stop := Returns 0; on_CloseDevice' := Returns 0;
       on_DestroyHandle' := Returns 0; on_Finalize' := Returns 0 |} in
  teardown_returns t = true /\ handler_returns a = true
  /\ release_returns r = true
  /\ snd (cleanup r (Returns tt) (Returns tt)
            (snd (fst (reconnect_camera t a true))) true [])
     = [loop_stop; disconnect]
  /\ count_occ sdk_call_eq_dec
       (snd (reconnect_camera t a true) ++ [loop_stop; disconnect])
       MV_CC_Finalize = 1%nat.
Proof.
  cbv zeta. repeat (split; [ reflexivity | ]).
  refine (proj1 (finalize_once_over_reconnect_and_cleanup
    {| was_connected := Returns true; on_StopGrabbing := Returns 0;
       on_Close := Returns 0; had_handle := true; on_Destroy := Returns 0 |}
    {| on_Initialize := Returns 0;
       on_EnumDevices := Returns (MV_OK, 0);
       on_CreateHandle := Returns 0;
       on_OpenDevice := Returns 0;
       on_SetTriggerMode := Returns 0;
       on_SetTriggerSource := Returns 0;
       on_StartGrabbing := Returns 0;
       on_IsDeviceConnected := Returns false;
       on_CloseDevice := Returns 0;
       cam_handle := false;
       on_DestroyHandle := Returns 0;
       on_Finalize := Returns 0 |}
    true
    {| on_Stop := Returns 0; on_CloseDevice' := Returns 0;
       on_DestroyHandle' := Returns 0; on_Finalize' := Returns 0 |}
    (Returns tt) (Returns tt) true _ _ _)); reflexivity.
Defined.

End CameraFacts.
